(** * chalice/utils.py: deterministic zip packaging and the OSUtils layer

    A shallow embedding of [ChaliceZipFile], [create_zip_file] and the
    [OSUtils] operations of [chalice/utils.py], together with models of the
    Python standard library functions they call ([posixpath], [ntpath],
    [os.walk], [os.remove], [shutil.rmtree], [tempfile.mkdtemp],
    [zipfile.ZipInfo], [zipfile.ZipFile.writestr] and
    [zipfile.ZipFile.extractall]). *)

From Stdlib Require Import Ascii String.
From Stdlib Require Import List ZArith Bool Lia.
Import ListNotations.

(** ** Python values *)

(** A Python [str] is a list of characters; [lit] turns a literal into one. *)
Definition str := list ascii.
Definition lit (s : string) : str := list_ascii_of_string s.

(** File contents are byte strings. *)
Definition bytes := list Byte.byte.

Definition slash : ascii := "/"%char.
Definition backslash : ascii := ascii_of_nat 92.
Definition colon : ascii := ":"%char.
Definition nul : ascii := ascii_of_nat 0.

Definition curdir : str := lit ".".
Definition pardir : str := lit "..".

Fixpoint str_eqb (a b : str) : bool :=
  match a, b with
  | [], [] => true
  | x :: a', y :: b' => Ascii.eqb x y && str_eqb a' b'
  | _, _ => false
  end.

(** [s.startswith(p)] *)
Fixpoint startswith (p s : str) : bool :=
  match p, s with
  | [], _ => true
  | x :: p', y :: s' => Ascii.eqb x y && startswith p' s'
  | _ :: _, [] => false
  end.

(** [s.endswith(p)] *)
Definition endswith (p s : str) : bool := startswith (rev p) (rev s).

(** [s.lstrip(c)] for a one-character [c]. *)
Fixpoint lstrip (c : ascii) (s : str) : str :=
  match s with
  | [] => []
  | x :: s' => if Ascii.eqb x c then lstrip c s' else s
  end.

(** [s.replace(c, d)] for one-character [c] and [d]. *)
Definition replace (c d : ascii) (s : str) : str :=
  map (fun x => if Ascii.eqb x c then d else x) s.

(** [s.split(c)] for a one-character separator: never the empty list. *)
Fixpoint split (c : ascii) (s : str) : list str :=
  match s with
  | [] => [[]]
  | x :: s' =>
      if Ascii.eqb x c then [] :: split c s'
      else match split c s' with
           | [] => [[x]]
           | w :: ws => (x :: w) :: ws
           end
  end.

(** [sep.join(l)] *)
Fixpoint join (sep : str) (l : list str) : str :=
  match l with
  | [] => []
  | x :: xs =>
      match xs with
      | [] => x
      | _ :: _ => x ++ sep ++ join sep xs
      end
  end.

(** [s.find(c, start)]: the first index at or after [start] holding [c]. *)
Fixpoint find_from (c : ascii) (start : nat) (s : str) : option nat :=
  match s with
  | [] => None
  | x :: s' =>
      match start with
      | O => if Ascii.eqb x c then Some O
             else option_map S (find_from c O s')
      | S k => option_map S (find_from c k s')
      end
  end.

(** The slice [s[i:j]]. *)
Definition slice (i j : nat) (s : str) : str := firstn (j - i) (skipn i s).

(** [s[:s.find(chr(0))]] when a NUL occurs, [s] otherwise. *)
Fixpoint truncate_nul (s : str) : str :=
  match s with
  | [] => []
  | x :: s' => if Ascii.eqb x nul then [] else x :: truncate_nul s'
  end.

(** ** Exceptions and results *)

Inductive errno : Type :=
  | ENOENT | ENOTDIR | EISDIR | EEXIST | ENOTEMPTY | EACCES.

(** The exceptions of the modelled code: [OSError] with its errno,
    [ValueError], [NotImplementedError], and any other exception, told
    apart by a tag. *)
Inductive exn : Type :=
  | OSError (e : errno)
  | ValueError
  | NotImplementedError
  | OtherError (tag : nat).

Inductive result (A : Type) : Type :=
  | Ok (a : A)
  | Raise (e : exn).
Arguments Ok {A} a.
Arguments Raise {A} e.

Definition bind {A B : Type} (m : result A) (k : A -> result B) : result B :=
  match m with
  | Ok a => k a
  | Raise e => Raise e
  end.

Declare Scope result_scope.
Delimit Scope result_scope with result.
Notation "x <- m ;; k" := (bind m (fun x => k))
  (at level 61, m at next level, right associativity) : result_scope.
Open Scope result_scope.

(** ** Hosts and [os.path] *)

(** The host operating system decides [os.sep] and which [os.path] module
    ([posixpath] or [ntpath]) the code runs against. *)
Inductive Host : Type := Posix | Nt.

Definition os_sep (h : Host) : ascii :=
  match h with Posix => slash | Nt => backslash end.

(** [posixpath], as CPython writes it in Python. *)
Module posixpath.

Definition sep : str := [slash].

(** [posixpath.splitdrive]: POSIX paths have no drive. *)
Definition splitdrive (p : str) : str * str := ([], p).

Definition isabs (s : str) : bool := startswith sep s.

(** The loop of [posixpath.normpath] over the components. *)
Fixpoint normcomps (initial_slashes : bool) (new_comps comps : list str)
  : list str :=
  match comps with
  | [] => new_comps
  | comp :: rest =>
      if str_eqb comp [] || str_eqb comp curdir then
        normcomps initial_slashes new_comps rest
      else if negb (str_eqb comp pardir)
              || (negb initial_slashes && match new_comps with [] => true | _ => false end)
              || (match new_comps with
                  | [] => false
                  | _ => str_eqb (last new_comps []) pardir
                  end) then
        normcomps initial_slashes (new_comps ++ [comp]) rest
      else
        normcomps initial_slashes (removelast new_comps) rest
  end.

(** [posixpath.normpath] *)
Definition normpath (path : str) : str :=
  match path with
  | [] => curdir
  | _ =>
      let initial_slashes : nat :=
        if startswith sep path then
          if startswith (sep ++ sep) path
             && negb (startswith (sep ++ sep ++ sep) path)
          then 2 else 1
        else 0 in
      let comps := normcomps (negb (Nat.eqb initial_slashes 0)) []
                             (split slash path) in
      let path' := concat (repeat sep initial_slashes) ++ join sep comps in
      match path' with
      | [] => curdir
      | _ => path'
      end
  end.

(** [posixpath.join(a, b)] *)
Definition join2 (a b : str) : str :=
  if startswith sep b then b
  else if match a with [] => true | _ => false end || endswith sep a
       then a ++ b
       else a ++ sep ++ b.

(** [posixpath.join(a, *p)] *)
Definition joinpath (a : str) (p : list str) : str := fold_left join2 p a.

(** [posixpath.abspath] with the working directory [cwd] (what
    [os.getcwd()] returns). *)
Definition abspath (cwd path : str) : str :=
  normpath (if isabs path then path else join2 cwd path).

(** The length of the longest common prefix of two component lists: what
    [len(commonprefix([start_list, path_list]))] computes. *)
Fixpoint commonprefix_len (a b : list str) : nat :=
  match a, b with
  | x :: a', y :: b' => if str_eqb x y then S (commonprefix_len a' b') else 0
  | _, _ => 0
  end.

(** [posixpath.relpath(path, start)] *)
Definition relpath (cwd path start : str) : result str :=
  match path with
  | [] => Raise ValueError
  | _ =>
      let nonempty := fun x : str => negb (str_eqb x []) in
      let start_list := filter nonempty (split slash (abspath cwd start)) in
      let path_list := filter nonempty (split slash (abspath cwd path)) in
      let i := commonprefix_len start_list path_list in
      let rel_list := repeat pardir (length start_list - i) ++ skipn i path_list in
      match rel_list with
      | [] => Ok curdir
      | x :: xs => Ok (joinpath x xs)
      end
  end.

End posixpath.

(** [ntpath], as CPython writes it in Python (3.4 to 3.10): drive letters
    and UNC paths in [splitdrive], and [normpath] on top of it. *)
Module ntpath.

Definition sep : str := [backslash].

(** [ntpath.splitdrive] (drive letters and UNC paths). *)
Definition splitdrive (p : str) : str * str :=
  if Nat.leb 2 (length p) then
    let normp := replace slash backslash p in
    if str_eqb (slice 0 2 normp) (sep ++ sep)
       && negb (str_eqb (slice 2 3 normp) sep) then
      match find_from backslash 2 normp with
      | None => ([], p)
      | Some index =>
          match find_from backslash (index + 1) normp with
          | Some index2 =>
              if Nat.eqb index2 (index + 1) then ([], p)
              else (firstn index2 p, skipn index2 p)
          | None => (firstn (length p) p, skipn (length p) p)
          end
      end
    else if str_eqb (slice 1 2 normp) [colon] then (firstn 2 p, skipn 2 p)
    else ([], p)
  else ([], p).

(** [ntpath.isabs] *)
Definition isabs (s : str) : bool :=
  match snd (splitdrive s) with
  | [] => false
  | c :: _ => Ascii.eqb c slash || Ascii.eqb c backslash
  end.

(** The [while] loop of [ntpath.normpath]: [done] is [comps[:i]] and the
    last argument is [comps[i:]]. *)
Fixpoint normcomps (prefix_ends_sep : bool) (done comps : list str)
  : list str :=
  match comps with
  | [] => done
  | comp :: rest =>
      if str_eqb comp [] || str_eqb comp curdir then
        normcomps prefix_ends_sep done rest
      else if str_eqb comp pardir then
        match done with
        | _ :: _ =>
            if negb (str_eqb (last done []) pardir)
            then normcomps prefix_ends_sep (removelast done) rest
            else normcomps prefix_ends_sep (done ++ [comp]) rest
        | [] =>
            if prefix_ends_sep
            then normcomps prefix_ends_sep done rest
            else normcomps prefix_ends_sep (done ++ [comp]) rest
        end
      else normcomps prefix_ends_sep (done ++ [comp]) rest
  end.

(** [ntpath.normpath] *)
Definition normpath (path : str) : str :=
  if startswith (sep ++ sep ++ lit "." ++ sep) path
     || startswith (sep ++ sep ++ lit "?" ++ sep) path
  then path
  else
    let path1 := replace slash backslash path in
    let (prefix0, path2) := splitdrive path1 in
    let (prefix, path3) :=
      if startswith sep path2
      then (prefix0 ++ sep, lstrip backslash path2)
      else (prefix0, path2) in
    let comps := normcomps (endswith sep prefix) [] (split backslash path3) in
    let comps' :=
      match prefix, comps with
      | [], [] => [curdir]
      | _, _ => comps
      end in
    prefix ++ join sep comps'.

End ntpath.

Definition splitdrive (h : Host) : str -> str * str :=
  match h with Posix => posixpath.splitdrive | Nt => ntpath.splitdrive end.

Definition normpath (h : Host) : str -> str :=
  match h with Posix => posixpath.normpath | Nt => ntpath.normpath end.

Definition isabs (h : Host) : str -> bool :=
  match h with Posix => posixpath.isabs | Nt => ntpath.isabs end.

(** ** [os.stat_result] *)

Record stat_result : Type := mk_stat {
  st_mode : Z;
  st_size : Z;
  st_mtime : Z
}.

(** ** [zipfile] *)

Definition ZIP_STORED : Z := 0.
Definition ZIP_DEFLATED : Z := 8.
Definition ZIP_BZIP2 : Z := 12.
Definition ZIP_LZMA : Z := 14.

Definition date_time_t : Type := (Z * Z * Z * Z * Z * Z)%type.

Record ZipInfo : Type := mk_ZipInfo {
  filename : str;
  date_time : date_time_t;
  compress_type : Z;
  create_system : Z;
  external_attr : Z;
  file_size : Z
}.

Definition set_external_attr (v : Z) (z : ZipInfo) : ZipInfo :=
  mk_ZipInfo (filename z) (date_time z) (compress_type z) (create_system z)
             v (file_size z).

Definition set_file_size (v : Z) (z : ZipInfo) : ZipInfo :=
  mk_ZipInfo (filename z) (date_time z) (compress_type z) (create_system z)
             (external_attr z) v.

Definition set_compress_type (v : Z) (z : ZipInfo) : ZipInfo :=
  mk_ZipInfo (filename z) (date_time z) v (create_system z)
             (external_attr z) (file_size z).

(** [zipfile.ZipInfo(filename, date_time)]: the name is cut at the first
    NUL and [os.sep] is replaced by a forward slash; a year before 1980 is
    refused. *)
Definition ZipInfo_init (h : Host) (name : str) (dt : date_time_t)
  : result ZipInfo :=
  let name1 := truncate_nul name in
  let name2 :=
    if negb (Ascii.eqb (os_sep h) slash) && existsb (Ascii.eqb (os_sep h)) name1
    then replace (os_sep h) slash name1
    else name1 in
  let '(year, _, _, _, _, _) := dt in
  if (year <? 1980)%Z then Raise ValueError
  else Ok (mk_ZipInfo name2 dt ZIP_STORED
                      (match h with Nt => 0%Z | Posix => 3%Z end) 0%Z 0%Z).

(** ** [OSUtils.normalized_filename] *)

Definition normalized_filename (h : Host) (path : str) : str :=
  normpath h (snd (splitdrive h path)).

(** ** [ChaliceZipFile] *)

(** An archive being written: its default compression and the entries
    appended so far, each with the (uncompressed) data written for it. *)
Record ChaliceZipFile : Type := mk_zip {
  compression : Z;
  filelist : list (ZipInfo * bytes)
}.

Definition _default_time_time : date_time_t := (1980, 1, 1, 0, 0, 0)%Z.

(** Python's [x or y] on an optional integer: [None] and [0] are falsy. *)
Definition or_default (x : option Z) (y : Z) : Z :=
  match x with
  | None => y
  | Some v => if (v =? 0)%Z then y else v
  end.

Section ChaliceZipFile.

(** The host the code runs on, and the file system behind
    [OSUtils.stat] and [open(filename, 'rb').read()]. *)
Variable h : Host.
Variable stat : str -> result stat_result.
Variable read_binary : str -> result bytes.

(** [ChaliceZipFile._create_zipinfo] *)
Definition _create_zipinfo (self : ChaliceZipFile)
           (fname : str) (arcname : option str) (compress : option Z)
  : result ZipInfo :=
  st <- stat fname ;;
  let arcname1 := match arcname with None => fname | Some a => a end in
  let arcname2 := normalized_filename h arcname1 in
  let arcname3 := lstrip (os_sep h) arcname2 in
  zinfo <- ZipInfo_init h arcname3 _default_time_time ;;
  let zinfo := set_external_attr (Z.shiftl (Z.land (st_mode st) 65535) 16) zinfo in
  let zinfo := set_file_size (st_size st) zinfo in
  let zinfo := set_compress_type (or_default compress (compression self)) zinfo in
  Ok zinfo.

(** [zipfile._check_compression] *)
Definition _check_compression (c : Z) : result unit :=
  if ((c =? ZIP_STORED) || (c =? ZIP_DEFLATED)
      || (c =? ZIP_BZIP2) || (c =? ZIP_LZMA))%Z
  then Ok tt else Raise NotImplementedError.

(** [zipfile.ZipFile.writestr(zinfo, data)] for a [ZipInfo] argument:
    the size becomes the length of the data and the entry is appended. *)
Definition writestr (self : ChaliceZipFile) (zinfo : ZipInfo) (data : bytes)
  : result ChaliceZipFile :=
  let zinfo := set_file_size (Z.of_nat (length data)) zinfo in
  _ <- _check_compression (compress_type zinfo) ;;
  Ok (mk_zip (compression self) (filelist self ++ [(zinfo, data)])).

(** [ChaliceZipFile.write] *)
Definition write (self : ChaliceZipFile)
           (fname : str) (arcname : option str) (compress : option Z)
  : result ChaliceZipFile :=
  zinfo <- _create_zipinfo self fname arcname compress ;;
  data <- read_binary fname ;;
  writestr self zinfo data.

End ChaliceZipFile.

Definition starts_with_char (c : ascii) (s : str) : bool :=
  match s with
  | [] => false
  | x :: _ => Ascii.eqb x c
  end.

(** The name stored by [ZipInfo] for the arcname [a]. *)
Definition stored_name (h : Host) (a : str) : str :=
  let name1 := truncate_nul (lstrip (os_sep h) (normalized_filename h a)) in
  if negb (Ascii.eqb (os_sep h) slash) && existsb (Ascii.eqb (os_sep h)) name1
  then replace (os_sep h) slash name1
  else name1.

Definition arc_or (fname : str) (arcname : option str) : str :=
  match arcname with None => fname | Some a => a end.

(** A one-file file system to run the definitions on: [app.py] holds
    [print(1)], has mode 0o100644 and was modified at some later time. *)
Definition app_py_stat : stat_result := mk_stat 33188 8 1541289600.

Definition app_py_data : bytes :=
  map Ascii.byte_of_ascii (lit "print(1)").

Definition stat1 (p : str) : result stat_result :=
  if str_eqb p (lit "app.py") then Ok app_py_stat else Raise (OSError ENOENT).

Definition read1 (p : str) : result bytes :=
  if str_eqb p (lit "app.py") then Ok app_py_data else Raise (OSError ENOENT).

Definition deflate_zip : ChaliceZipFile := mk_zip ZIP_DEFLATED [].

(** ** What the spec asks of a stored entry name *)

(** The only separator in the name is the forward slash: the host's own
    separator does not occur in it unless it is the forward slash. *)
Definition forward_slash_separated (h : Host) (name : str) : Prop :=
  In (os_sep h) name -> os_sep h = slash.

Definition no_leading_separator (h : Host) (name : str) : Prop :=
  starts_with_char slash name = false
  /\ starts_with_char (os_sep h) name = false.

Definition no_drive (h : Host) (name : str) : Prop :=
  fst (splitdrive h name) = [].

Definition relative (h : Host) (name : str) : Prop :=
  isabs h name = false.

(** The paths [ntpath.normpath] returns as they are: those that start
    with [\\.\] or [\\?\]. *)
Definition nt_special_prefix (path : str) : bool :=
  startswith (ntpath.sep ++ ntpath.sep ++ lit "." ++ ntpath.sep) path
  || startswith (ntpath.sep ++ ntpath.sep ++ lit "?" ++ ntpath.sep) path.

(** ** The file system *)

(** A file system is a tree. A directory lists its entries in the order
    the host enumerates them ([os.scandir]); a file carries what [os.stat]
    reports for it and its content. There are no symbolic links. *)
#[warnings="-register-all"]
Inductive node : Type :=
  | File (st : stat_result) (data : bytes)
  | Dir (st : stat_result) (entries : list (str * node)).

Definition is_dir (n : node) : bool :=
  match n with Dir _ _ => true | File _ _ => false end.

Definition node_stat (n : node) : stat_result :=
  match n with File st _ => st | Dir st _ => st end.

(** The entry called [name] of a directory listing. *)
Fixpoint assoc (name : str) (es : list (str * node)) : option node :=
  match es with
  | [] => None
  | (n, x) :: es' => if str_eqb n name then Some x else assoc name es'
  end.

(** A position is the list of names that leads from the root to a node. *)
Definition position := list str.

Fixpoint lookup (n : node) (pos : position) : option node :=
  match pos with
  | [] => Some n
  | c :: cs =>
      match n with
      | Dir _ es =>
          match assoc c es with
          | Some m => lookup m cs
          | None => None
          end
      | File _ _ => None
      end
  end.

(** [alter_entry name f es]: the listing with the entry [name] changed by
    [f] (removed when [f] gives [None]); a new entry goes to the end. *)
Fixpoint alter_entry (name : str) (f : option node -> option node)
         (es : list (str * node)) : list (str * node) :=
  match es with
  | [] => match f None with Some m => [(name, m)] | None => [] end
  | (n, x) :: es' =>
      if str_eqb n name then
        match f (Some x) with
        | Some m => (n, m) :: es'
        | None => es'
        end
      else (n, x) :: alter_entry name f es'
  end.

(** [alter f pos]: the tree with the node at [pos] changed by [f]; nothing
    changes when the directories leading to [pos] do not exist. *)
Fixpoint alter (f : option node -> option node) (pos : position)
  : option node -> option node :=
  match pos with
  | [] => f
  | c :: cs =>
      fun o =>
        match o with
        | Some (Dir st es) => Some (Dir st (alter_entry c (alter f cs) es))
        | other => other
        end
  end.

(** The state of the host: the tree under [/] and the working directory
    of the process, as a position. *)
Record filesystem : Type := mk_fs {
  root : node;
  cwd : position
}.

Definition alter_fs (f : option node -> option node) (pos : position)
           (fs : filesystem) : filesystem :=
  match alter f pos (Some (root fs)) with
  | Some r => mk_fs r (cwd fs)
  | None => fs
  end.

(** [os.getcwd()] *)
Definition getcwd (fs : filesystem) : str :=
  slash :: join [slash] (cwd fs).

(** *** Path resolution *)

(** One step per component of the path, as the kernel resolves it: the
    node reached so far must be a directory; an empty component and [.]
    stay, [..] goes up (the root is its own parent), a name goes down. *)
Fixpoint resolve_comps (r : node) (cur : position) (comps : list str)
  : result position :=
  match comps with
  | [] => Ok cur
  | c :: cs =>
      match lookup r cur with
      | Some (Dir _ _) =>
          if str_eqb c [] || str_eqb c curdir then resolve_comps r cur cs
          else if str_eqb c pardir then resolve_comps r (removelast cur) cs
          else match lookup r (cur ++ [c]) with
               | Some _ => resolve_comps r (cur ++ [c]) cs
               | None => Raise (OSError ENOENT)
               end
      | Some (File _ _) => Raise (OSError ENOTDIR)
      | None => Raise (OSError ENOENT)
      end
  end.

(** The position a path names; the empty path names nothing. *)
Definition resolve (fs : filesystem) (p : str) : result position :=
  match p with
  | [] => Raise (OSError ENOENT)
  | _ =>
      resolve_comps (root fs)
                    (if posixpath.isabs p then [] else cwd fs)
                    (split slash p)
  end.

Definition node_at (fs : filesystem) (p : str) : result node :=
  pos <- resolve fs p ;;
  match lookup (root fs) pos with
  | Some n => Ok n
  | None => Raise (OSError ENOENT)
  end.

(** [os.stat] (and [OSUtils.stat]) *)
Definition os_stat (fs : filesystem) (p : str) : result stat_result :=
  n <- node_at fs p ;; Ok (node_stat n).

(** [open(p, 'rb').read()] *)
Definition read_binary (fs : filesystem) (p : str) : result bytes :=
  n <- node_at fs p ;;
  match n with
  | File _ data => Ok data
  | Dir _ _ => Raise (OSError EISDIR)
  end.

(** [os.path.exists] and [os.path.isdir] *)
Definition path_exists (fs : filesystem) (p : str) : bool :=
  match node_at fs p with Ok _ => true | Raise _ => false end.

Definition path_isdir (fs : filesystem) (p : str) : bool :=
  match node_at fs p with Ok n => is_dir n | Raise _ => false end.

(** *** [os.walk] *)

Definition dirnames (es : list (str * node)) : list str :=
  map fst (filter (fun e => is_dir (snd e)) es).

Definition nondirnames (es : list (str * node)) : list str :=
  map fst (filter (fun e => negb (is_dir (snd e))) es).

(** [os.walk(top)] below a node, top-down: the triple of the directory,
    then the walks of its subdirectories in listing order. *)
Fixpoint walk (top : str) (n : node) : list (str * list str * list str) :=
  match n with
  | File _ _ => []
  | Dir _ es =>
      (top, dirnames es, nondirnames es)
      :: flat_map (fun e =>
                     if is_dir (snd e)
                     then walk (posixpath.join2 top (fst e)) (snd e)
                     else [])
                  es
  end.

(** [os.walk(top)]: a top that cannot be listed yields nothing. *)
Definition os_walk (fs : filesystem) (top : str)
  : list (str * list str * list str) :=
  match node_at fs top with
  | Ok n => walk top n
  | Raise _ => []
  end.

(** ** [create_zip_file] *)

(** A [for] loop whose body may raise. *)
Fixpoint foreach {A S : Type} (l : list A) (body : S -> A -> result S) (s : S)
  : result S :=
  match l with
  | [] => Ok s
  | x :: l' => s' <- body s x ;; foreach l' body s'
  end.

(** The body of the inner loop of [create_zip_file]: one file of the
    directory [top]. *)
Definition zip_add_file (fs : filesystem) (source_dir top : str)
           (z : ChaliceZipFile) (fname : str) : result ChaliceZipFile :=
  let full_name := posixpath.join2 top fname in
  archive_name <- posixpath.relpath (getcwd fs) full_name source_dir ;;
  write Posix (os_stat fs) (read_binary fs) z full_name (Some archive_name) None.

(** The body of the outer loop: one triple of the walk. *)
Definition zip_add_dir (fs : filesystem) (source_dir : str)
           (z : ChaliceZipFile) (t : str * list str * list str)
  : result ChaliceZipFile :=
  let '(top, _, filenames) := t in
  foreach filenames (zip_add_file fs source_dir top) z.

(** [create_zip_file(source_dir, outfile)] on a POSIX host. The result is
    the archive written to [outfile]; [outfile] itself is taken to lie
    outside the tree that is walked. *)
Definition create_zip_file (fs : filesystem) (source_dir : str)
  : result ChaliceZipFile :=
  foreach (os_walk fs source_dir) (zip_add_dir fs source_dir)
          (mk_zip ZIP_DEFLATED []).

(** *** The files below a directory, in the order of the walk *)





(** The directory of the spec's scenario, under [/home/u/src]:
    [a/b.txt] and [a/c/d.txt]. *)
Definition dir_stat : stat_result := mk_stat 16877 4096 1541289600.

Definition file_of (mode : Z) (mtime : Z) (s : string) : node :=
  File (mk_stat mode (Z.of_nat (String.length s)) mtime)
       (map Ascii.byte_of_ascii (lit s)).

Definition src_tree : node :=
  Dir dir_stat
    [(lit "a", Dir dir_stat
        [(lit "c", Dir dir_stat [(lit "d.txt", file_of 33261 1541289601 "dee")]);
         (lit "b.txt", file_of 33188 1541289602 "bee")])].

Definition fs_of (src : node) : filesystem :=
  mk_fs (Dir dir_stat
           [(lit "tmp", Dir dir_stat []);
            (lit "home", Dir dir_stat
               [(lit "u", Dir dir_stat [(lit "src", src)])])])
        [lit "home"; lit "u"].

Definition fs0 : filesystem := fs_of src_tree.

(** *** Well-formed trees *)

(** A name of a directory entry: not empty, not [.] or [..], without [/]
    and without NUL. *)
Definition valid_name (n : str) : bool :=
  negb (str_eqb n []) && negb (str_eqb n curdir) && negb (str_eqb n pardir)
  && negb (existsb (Ascii.eqb slash) n) && negb (existsb (Ascii.eqb nul) n).

Fixpoint nodupb (l : list str) : bool :=
  match l with
  | [] => true
  | x :: l' => negb (existsb (str_eqb x) l') && nodupb l'
  end.

(** Every directory lists valid names, each once. *)
Fixpoint wf_node (n : node) : bool :=
  match n with
  | File _ _ => true
  | Dir _ es =>
      forallb (fun e => valid_name (fst e)) es
      && nodupb (map fst es)
      && forallb (fun e => wf_node (snd e)) es
  end.

(** The working directory is a directory of the tree. *)
Definition wf_fs (fs : filesystem) : bool :=
  wf_node (root fs)
  && forallb valid_name (cwd fs)
  && match lookup (root fs) (cwd fs) with
     | Some (Dir _ _) => true
     | _ => false
     end.

(** The components of [abspath(p)]. *)
Definition abs_comps (cwd_str p : str) : list str :=
  filter (fun x : str => negb (str_eqb x [])) (split slash (posixpath.abspath cwd_str p)).

(** A component of a normalised path: not empty and without [/]. *)
Definition clean (w : str) : Prop := w <> [] /\ ~ In slash w.


(** *** Two directories with the same files *)






(** ** [OSUtils.remove_file] *)

Definition lookup_opt (o : option node) (pos : position) : option node :=
  match o with Some n => lookup n pos | None => None end.

Definition delete : option node -> option node := fun _ => None.

(** [os.remove(p)]: unlinks a file; a missing path and a directory are
    errors, and so is a path through something that is no directory. *)
Definition os_remove (fs : filesystem) (p : str) : result filesystem :=
  pos <- resolve fs p ;;
  match lookup (root fs) pos with
  | Some (File _ _) => Ok (alter_fs delete pos fs)
  | Some (Dir _ _) => Raise (OSError EISDIR)
  | None => Raise (OSError ENOENT)
  end.

(** The outcome of a call that changes the file system: the state it
    leaves, and its result or the exception it raised. *)
Definition outcome (A : Type) : Type := (filesystem * result A)%type.

Section remove_file.

(** The deletion primitive of the host, [os.remove]. *)
Variable remove : filesystem -> str -> result filesystem.

(** [OSUtils.remove_file]: [try: os.remove(filename) except OSError: pass].
    A call that raises leaves the file system as it was. *)
Definition remove_file_with (fs : filesystem) (fname : str) : outcome unit :=
  match remove fs fname with
  | Ok fs' => (fs', Ok tt)
  | Raise (OSError _) => (fs, Ok tt)
  | Raise e => (fs, Raise e)
  end.

End remove_file.


(** [t2] has no more than [t1]: what [t2] has at a position, [t1] has
    there too, of the same kind. *)
Definition shrinks (t2 t1 : node) : Prop :=
  forall q n2, lookup t2 q = Some n2 ->
               exists n1, lookup t1 q = Some n1 /\ is_dir n1 = is_dir n2.

(** ** [OSUtils.tempdir] *)

(** [shutil.rmtree(p)]: removes the directory [p] names with all it
    holds; a missing path and a file are errors, and the root stays. *)
Definition rmtree (fs : filesystem) (p : str) : result filesystem :=
  pos <- resolve fs p ;;
  match lookup (root fs) pos with
  | Some (Dir _ _) =>
      match pos with
      | [] => Raise (OSError EACCES)
      | _ :: _ => Ok (alter_fs delete pos fs)
      end
  | Some (File _ _) => Raise (OSError ENOTDIR)
  | None => Raise (OSError ENOENT)
  end.

Definition is_free (es : list (str * node)) (name : str) : bool :=
  match assoc name es with None => true | Some _ => false end.

(** [tempfile.mkdtemp()]: [tmp] is the position of
    [tempfile.gettempdir()] and [names] the candidate names the random
    generator yields. The first candidate [tmp<name>] that is free becomes
    a new empty directory of mode 0o700, and its absolute path is
    returned; [FileExistsError] when no candidate is free. *)
Definition mkdtemp (tmp : position) (names : list str) (fs : filesystem)
  : result (str * filesystem) :=
  match lookup (root fs) tmp with
  | Some (Dir _ es) =>
      match find (fun n => is_free es (lit "tmp" ++ n)) names with
      | Some n =>
          let pos := tmp ++ [lit "tmp" ++ n] in
          Ok (slash :: join [slash] pos,
              alter_fs (fun _ => Some (Dir (mk_stat 16832 0 0) [])) pos fs)
      | None => Raise (OSError EEXIST)
      end
  | Some (File _ _) => Raise (OSError ENOTDIR)
  | None => Raise (OSError ENOENT)
  end.

(** [with osutils.tempdir() as d: body(d)]: the generator makes the
    directory, yields its path to the body of the [with] statement, and
    its [finally] clause runs [shutil.rmtree] however the body ends; an
    exception of [rmtree] replaces the outcome of the body. *)
Definition tempdir {A : Type} (tmp : position) (names : list str)
           (body : str -> filesystem -> outcome A) (fs : filesystem)
  : outcome A :=
  match mkdtemp tmp names fs with
  | Raise e => (fs, Raise e)
  | Ok (d, fs1) =>
      let (fs2, r) := body d fs1 in
      match rmtree fs2 d with
      | Ok fs3 => (fs3, r)
      | Raise e => (fs2, Raise e)
      end
  end.

(** A body that fills the directory and fails. *)
Definition body_fill_and_fail (d : str) (fs : filesystem) : outcome unit :=
  match resolve fs d with
  | Ok pos =>
      (alter_fs (fun _ => Some (file_of 33188 0 "scratch"))
                (pos ++ [lit "work.txt"]) fs,
       Raise (OtherError 7))
  | Raise e => (fs, Raise e)
  end.


(** ** [OSUtils.extract_zipfile] *)

Section extract.

(** The file-mode creation mask of the process and the time of the
    extraction. *)
Variable umask : Z.
Variable now : Z.

(** What [os.mkdir] and [open(p, 'wb')] give a new directory and a new
    file: modes 0o777 and 0o666 less the mask. *)
Definition new_dir_stat : stat_result :=
  mk_stat (Z.lor 16384 (Z.land 511 (Z.lnot umask))) 4096 now.

Definition new_file_stat (data : bytes) : stat_result :=
  mk_stat (Z.lor 32768 (Z.land 438 (Z.lnot umask)))
          (Z.of_nat (length data)) now.

(** [put pos what o]: what [ZipFile._extract_member] does to the tree [o]
    at the position [pos], below which the target lies. The directories
    that lead to the target are made when they are missing
    ([os.makedirs]); then a member that is a file is written
    ([open(targetpath, 'wb')], which creates the file or replaces the
    content of the one that is there), [what] being its data, and a member
    that is a directory ([what = None]) is made unless it is there. *)
Fixpoint put (pos : position) (what : option bytes) (o : option node)
  : result node :=
  match pos with
  | [] =>
      match what, o with
      | Some data, None => Ok (File (new_file_stat data) data)
      | Some data, Some (File st _) =>
          Ok (File (mk_stat (st_mode st) (Z.of_nat (length data)) now) data)
      | Some _, Some (Dir _ _) => Raise (OSError EISDIR)
      | None, None => Ok (Dir new_dir_stat [])
      | None, Some (Dir st es) => Ok (Dir st es)
      | None, Some (File _ _) => Raise (OSError EEXIST)
      end
  | c :: cs =>
      match o with
      | None =>
          child <- put cs what None ;;
          Ok (Dir new_dir_stat [(c, child)])
      | Some (Dir st es) =>
          child <- put cs what (assoc c es) ;;
          Ok (Dir st (alter_entry c (fun _ => Some child) es))
      | Some (File _ _) => Raise (OSError ENOTDIR)
      end
  end.

(** The parts of a member name that [_extract_member] keeps. *)
Definition valid_part (x : str) : bool :=
  negb (str_eqb x [] || str_eqb x curdir || str_eqb x pardir).

(** [ZipFile._extract_member(member, targetpath)] on a POSIX host: the
    target is [normpath(join(targetpath, arcname))], where [arcname] is
    the member name without its empty, [.] and [..] parts; the tree is
    changed at the position of the target. *)
Definition extract_member (unpack_dir : str) (fs : filesystem)
           (member : ZipInfo * bytes) : result filesystem :=
  let (zinfo, data) := member in
  let arcname :=
    join posixpath.sep (filter valid_part (split slash (filename zinfo))) in
  let targetpath := posixpath.normpath (posixpath.join2 unpack_dir arcname) in
  let pos := abs_comps (getcwd fs) targetpath in
  let what := if endswith [slash] (filename zinfo) then None else Some data in
  r <- put pos what (Some (root fs)) ;;
  Ok (mk_fs r (cwd fs)).

(** [ZipFile.extractall(path)] *)
Definition extractall (z : ChaliceZipFile) (unpack_dir : str)
           (fs : filesystem) : result filesystem :=
  foreach (filelist z) (extract_member unpack_dir) fs.

(** [OSUtils.extract_zipfile(zipfile_path, unpack_dir)], where [z] is the
    archive that [zipfile_path] holds. *)
Definition extract_zipfile (fs : filesystem) (z : ChaliceZipFile)
           (unpack_dir : str) : result filesystem :=
  extractall z unpack_dir fs.

End extract.


Definition wf_opt (o : option node) : Prop :=
  match o with Some m => wf_node m = true | None => True end.


(** A component that [normpath] keeps: not empty, not [.] and not [..]. *)
Definition plain (x : str) : Prop := x <> [] /\ x <> curdir /\ x <> pardir.

(** One turn of the loop of [posixpath.normpath]. *)
Definition posix_step (initial_slashes : bool) (new_comps : list str)
           (comp : str) : list str :=
  if str_eqb comp [] || str_eqb comp curdir then new_comps
  else if negb (str_eqb comp pardir)
          || (negb initial_slashes
              && match new_comps with [] => true | _ => false end)
          || (match new_comps with
              | [] => false
              | _ => str_eqb (last new_comps []) pardir
              end)
  then new_comps ++ [comp]
  else removelast new_comps.


(** ** [to_cfn_resource_name] *)

Definition dash : ascii := "-"%char.
Definition underscore : ascii := "_"%char.

Definition in_range (lo hi : nat) (c : ascii) : bool :=
  Nat.leb lo (nat_of_ascii c) && Nat.leb (nat_of_ascii c) hi.

Definition is_lower (c : ascii) : bool := in_range 97 122 c.
Definition is_upper (c : ascii) : bool := in_range 65 90 c.
Definition is_digit (c : ascii) : bool := in_range 48 57 c.

(** What the class [[A-Za-z0-9]] matches. *)
Definition is_alnum (c : ascii) : bool := is_lower c || is_upper c || is_digit c.

(** The characters of an ASCII string. The model of [str.upper] below is
    that of ASCII names: elsewhere [upper] may change other characters. *)
Definition is_ascii (c : ascii) : bool := Nat.ltb (nat_of_ascii c) 128.

(** [c.upper()] for one character. *)
Definition upper_char (c : ascii) : ascii :=
  if is_lower c then ascii_of_nat (nat_of_ascii c - 32) else c.

(** [w[0].upper() + w[1:]] for a non-empty [w]. *)
Definition capitalize (w : str) : str :=
  match w with
  | [] => []
  | c :: w' => upper_char c :: w'
  end.

(** One turn of the loop over the word separators: the non-empty parts
    between separators, each with its first character in upper case, put
    together. *)
Definition camel_words (sep : ascii) (name : str) : str :=
  concat (map capitalize
              (filter (fun p : str => negb (str_eqb p [])) (split sep name))).

(** [to_cfn_resource_name(name)]; [re.sub(r'[^A-Za-z0-9]+', '', name)]
    keeps the characters of the class and drops the others. *)
Definition to_cfn_resource_name (name : str) : result str :=
  match name with
  | [] => Raise ValueError
  | _ :: _ =>
      Ok (filter is_alnum
                 (fold_left (fun n sep => camel_words sep n)
                            [dash; underscore] name))
  end.

(** ** What [create_zip_file] gives every entry *)

Definition entry_as_written (e : ZipInfo * bytes) : Prop :=
  compress_type (fst e) = ZIP_DEFLATED
  /\ date_time (fst e) = _default_time_time
  /\ create_system (fst e) = 3%Z
  /\ file_size (fst e) = Z.of_nat (length (snd e)).


(** ** Files through [OSUtils] *)

(** [os.path.isfile] *)
Definition path_isfile (fs : filesystem) (p : str) : bool :=
  match node_at fs p with Ok (File _ _) => true | _ => false end.

(** [OSUtils.file_exists] and [OSUtils.directory_exists] *)
Definition file_exists : filesystem -> str -> bool := path_isfile.
Definition directory_exists : filesystem -> str -> bool := path_isdir.

(** The components of a path less the empty ones that separators at its
    end leave. *)
Fixpoint drop_trailing_empty (comps : list str) : list str :=
  match comps with
  | [] => []
  | c :: cs =>
      match drop_trailing_empty cs with
      | [] => if str_eqb c [] then [] else [c]
      | cs' => c :: cs'
      end
  end.

(** What [open(p, 'wb')] and the [write(data)] that follows do to the node
    [p] names: a file gets the data and keeps its mode; where nothing is,
    a file is created. (A directory is refused before, in [open_wb].) *)
Definition written (umask now : Z) (data : bytes) (o : option node)
  : option node :=
  match o with
  | Some (File st _) =>
      Some (File (mk_stat (st_mode st) (Z.of_nat (length data)) now) data)
  | Some (Dir st es) => Some (Dir st es)
  | None => Some (File (new_file_stat umask now data) data)
  end.

(** [with open(p, 'wb') as f: f.write(data)] on a POSIX host. The
    directory of the file must exist; a path that ends in a separator, in
    [.] or in [..], or that names a directory, is refused. *)
Definition open_wb (umask now : Z) (fs : filesystem) (p : str) (data : bytes)
  : result filesystem :=
  match p with
  | [] => Raise (OSError ENOENT)
  | _ :: _ =>
      if existsb (Ascii.eqb nul) p then Raise ValueError
      else
        let comps := split slash p in
        let named := drop_trailing_empty comps in
        let name := last named [] in
        parent <- resolve_comps (root fs)
                                (if posixpath.isabs p then [] else cwd fs)
                                (removelast named) ;;
        match lookup (root fs) parent with
        | Some (Dir _ _) =>
            if Nat.ltb (length named) (length comps)
               || str_eqb name [] || str_eqb name curdir || str_eqb name pardir
            then Raise (OSError EISDIR)
            else
              match lookup (root fs) (parent ++ [name]) with
              | Some (Dir _ _) => Raise (OSError EISDIR)
              | _ => Ok (alter_fs (written umask now data) (parent ++ [name]) fs)
              end
        | Some (File _ _) => Raise (OSError ENOTDIR)
        | None => Raise (OSError ENOENT)
        end
  end.

(** [OSUtils.get_file_contents(filename, binary=True)] *)
Definition get_file_contents (fs : filesystem) (filename : str)
  : result bytes :=
  read_binary fs filename.

(** [OSUtils.set_file_contents(filename, contents, binary=True)] *)
Definition set_file_contents (umask now : Z) (fs : filesystem)
           (filename : str) (contents : bytes) : result filesystem :=
  open_wb umask now fs filename contents.

(** ** The file of deployed values *)

(** A [dict] with strings as keys, in the order of insertion. *)
Definition dict (V : Type) : Type := list (str * V).

(** [d.get(key)] *)
Fixpoint dict_get {V : Type} (key : str) (d : dict V) : option V :=
  match d with
  | [] => None
  | (k, v) :: d' => if str_eqb k key then Some v else dict_get key d'
  end.

(** [key in d] *)
Definition dict_has {V : Type} (key : str) (d : dict V) : bool :=
  existsb (fun e => str_eqb (fst e) key) d.

(** [del d[key]]: [None] stands for the [KeyError] of a missing key. *)
Definition dict_del {V : Type} (key : str) (d : dict V) : option (dict V) :=
  if dict_has key d
  then Some (filter (fun e => negb (str_eqb (fst e) key)) d)
  else None.

(** [d[key] = v]: the value of a key that is there is replaced where it
    stands; a new key goes to the end. *)
Fixpoint dict_set {V : Type} (key : str) (v : V) (d : dict V) : dict V :=
  match d with
  | [] => [(key, v)]
  | (k, x) :: d' =>
      if str_eqb k key then (k, v) :: d' else (k, x) :: dict_set key v d'
  end.

(** [d.update(other)] *)
Definition dict_update {V : Type} (d other : dict V) : dict V :=
  fold_left (fun acc e => dict_set (fst e) (snd e) acc) other d.

(** [s.encode('utf-8')], for code points below 256. *)
Definition encode_utf8 (s : str) : bytes :=
  flat_map (fun c =>
              let n := nat_of_ascii c in
              if Nat.ltb n 128 then [byte_of_ascii c]
              else [byte_of_ascii (ascii_of_nat (192 + n / 64));
                    byte_of_ascii (ascii_of_nat (128 + n mod 64))])
           s.

Definition newline : ascii := ascii_of_nat 10.

Section deployed_values.

(** The values of JSON documents, and the [json] module: [json.load] of
    the content of a file whose document is an object (for any other
    content it raises), and [json.dumps(data, indent=2,
    separators=(',', ': '))]. *)
Variable V : Type.
Variable json_load : bytes -> result (dict V).
Variable json_dumps : dict V -> str.

(** The file-mode creation mask of the process and the time of the
    call. *)
Variable umask : Z.
Variable now : Z.

(** [serialize_to_json(data)] *)
Definition serialize_to_json (data : dict V) : str :=
  json_dumps data ++ [newline].

(** [with open(filename, 'r') as f: json.load(f)] *)
Definition load_json_file (fs : filesystem) (filename : str)
  : result (dict V) :=
  data <- read_binary fs filename ;; json_load data.

(** [with open(filename, 'wb') as f:
       f.write(serialize_to_json(values).encode('utf-8'))] *)
Definition dump_json_file (fs : filesystem) (filename : str)
           (values : dict V) : result filesystem :=
  open_wb umask now fs filename (encode_utf8 (serialize_to_json values)).

(** [remove_stage_from_deployed_values(key, filename)]: an [IOError] while
    the file is read ends the call; without the key the file is not
    written. *)
Definition remove_stage_from_deployed_values (key filename : str)
           (fs : filesystem) : outcome unit :=
  match load_json_file fs filename with
  | Raise (OSError _) => (fs, Ok tt)
  | Raise e => (fs, Raise e)
  | Ok final_values =>
      match dict_del key final_values with
      | None => (fs, Ok tt)
      | Some rest =>
          match dump_json_file fs filename rest with
          | Ok fs' => (fs', Ok tt)
          | Raise e => (fs, Raise e)
          end
      end
  end.

(** [record_deployed_values(deployed_values, filename)] *)
Definition record_deployed_values (deployed_values : dict V) (filename : str)
           (fs : filesystem) : outcome unit :=
  match (if path_isfile fs filename then load_json_file fs filename
         else Ok []) with
  | Raise e => (fs, Raise e)
  | Ok final_values =>
      match dump_json_file fs filename
                           (dict_update final_values deployed_values) with
      | Ok fs' => (fs', Ok tt)
      | Raise e => (fs, Raise e)
      end
  end.

End deployed_values.

(** A [json] module for documents whose values are all [null], to run the
    definitions on: a document is written as its keys, one per line. *)
Definition keys_dumps (d : dict unit) : str :=
  join [newline] (map fst d).

Definition keys_load (data : bytes) : result (dict unit) :=
  match rev (map ascii_of_byte data) with
  | c :: s =>
      if Ascii.eqb c newline
      then Ok (map (fun k => (k, tt))
                   (filter (fun k => negb (str_eqb k []))
                           (split newline (rev s))))
      else Raise ValueError
  | [] => Raise ValueError
  end.

(** The scenario's file system after two stages were recorded in
    [deployed.json]. *)
Definition two_stages : dict unit := [(lit "dev", tt); (lit "prod", tt)].

Definition fs_deployed : filesystem :=
  fst (record_deployed_values unit keys_load keys_dumps 18 7
                              two_stages (lit "deployed.json") fs0).

(** ** Endpoints *)

(** The exceptions of indexing a list and a [dict]. *)
Definition IndexError : exn := OtherError 1.
Definition KeyError : exn := OtherError 2.

(** [l[i]] for an index that is not negative. *)
Definition index {A : Type} (l : list A) (i : nat) : result A :=
  match nth_error l i with
  | Some x => Ok x
  | None => Raise IndexError
  end.

Section endpoints.

(** The values of Python, with the strings among them, and
    [create_resolver().construct_endpoint]: the details botocore has for a
    service in a region, or [None]. *)
Variable Any : Type.
Variable of_str : str -> Any.
Variable construct_endpoint : str -> str -> option (dict Any).

(** [resolve_endpoint(service, region)] *)
Definition resolve_endpoint (service region : str) : option (dict Any) :=
  construct_endpoint service region.

(** [endpoint_from_arn(arn)] *)
Definition endpoint_from_arn (arn : str) : result (option (dict Any)) :=
  let arn_split := split colon arn in
  service <- index arn_split 2 ;;
  region <- index arn_split 3 ;;
  Ok (resolve_endpoint service region).

(** [endpoint['dnsSuffix'] if endpoint else 'amazonaws.com']: [None] and
    the empty [dict] are false. *)
Definition dns_suffix_or_default (endpoint : option (dict Any)) : result Any :=
  match endpoint with
  | Some (e :: es) =>
      match dict_get (lit "dnsSuffix") (e :: es) with
      | Some suffix => Ok suffix
      | None => Raise KeyError
      end
  | _ => Ok (of_str (lit "amazonaws.com"))
  end.

(** [endpoint_dns_suffix(service, region)] *)
Definition endpoint_dns_suffix (service region : str) : result Any :=
  dns_suffix_or_default (resolve_endpoint service region).

(** [endpoint_dns_suffix_from_arn(arn)] *)
Definition endpoint_dns_suffix_from_arn (arn : str) : result Any :=
  endpoint <- endpoint_from_arn arn ;;
  dns_suffix_or_default endpoint.

End endpoints.

(** Endpoint data to run the definitions on: one service, in two
    partitions. *)
Definition endpoints1 (service region : str) : option (dict str) :=
  if str_eqb service (lit "lambda") then
    if str_eqb region (lit "us-west-2")
    then Some [(lit "hostname", lit "lambda.us-west-2.amazonaws.com");
               (lit "dnsSuffix", lit "amazonaws.com")]
    else if str_eqb region (lit "cn-north-1")
    then Some [(lit "hostname", lit "lambda.cn-north-1.amazonaws.com.cn");
               (lit "dnsSuffix", lit "amazonaws.com.cn")]
    else None
  else None.

(** ** Where an extraction writes *)

(** [p] leads to [q]: [q] is [p], or lies below it. *)
Definition is_prefix (p q : position) : Prop := exists s, q = p ++ s.


(** An archive whose member names point out of the directory it is
    extracted to. *)
Definition zip_slip : ChaliceZipFile :=
  mk_zip ZIP_DEFLATED
         [(mk_ZipInfo (lit "../../home/u/src/a.txt") _default_time_time
                      ZIP_DEFLATED 3 0 8, app_py_data);
          (mk_ZipInfo (lit "/home/u/evil.py") _default_time_time
                      ZIP_DEFLATED 3 0 8, app_py_data)].

(** ** [OSUtils.copytree] *)

Definition RecursionError : exn := OtherError 3.
Definition SameFileError : exn := OtherError 4.

(** [os.listdir] (and [OSUtils.get_directory_contents]) *)
Definition listdir (fs : filesystem) (p : str) : result (list str) :=
  n <- node_at fs p ;;
  match n with
  | Dir _ es => Ok (map fst es)
  | File _ _ => Raise (OSError ENOTDIR)
  end.

(** [os.mkdir(p)] on a POSIX host: the directory of the new one must
    exist, and the path must name nothing. *)
Definition os_mkdir (umask now : Z) (fs : filesystem) (p : str)
  : result filesystem :=
  match p with
  | [] => Raise (OSError ENOENT)
  | _ :: _ =>
      if existsb (Ascii.eqb nul) p then Raise ValueError
      else
        let named := drop_trailing_empty (split slash p) in
        let name := last named [] in
        parent <- resolve_comps (root fs)
                                (if posixpath.isabs p then [] else cwd fs)
                                (removelast named) ;;
        match lookup (root fs) parent with
        | Some (Dir _ _) =>
            if str_eqb name [] || str_eqb name curdir || str_eqb name pardir
            then Raise (OSError EEXIST)
            else
              match lookup (root fs) (parent ++ [name]) with
              | Some _ => Raise (OSError EEXIST)
              | None =>
                  Ok (alter_fs (fun _ => Some (Dir (new_dir_stat umask now) []))
                               (parent ++ [name]) fs)
              end
        | Some (File _ _) => Raise (OSError ENOTDIR)
        | None => Raise (OSError ENOENT)
        end
  end.

(** [s.rstrip(c)] *)
Definition rstrip (c : ascii) (s : str) : str := rev (lstrip c (rev s)).

(** [posixpath.split]: the path up to its last separator, without the
    separators at its end unless it has nothing else, and what follows
    that separator. *)
Definition posix_split (p : str) : str * str :=
  let tail := last (split slash p) [] in
  let head := firstn (length p - length tail) p in
  (if negb (match head with [] => true | _ => false end)
      && negb (forallb (Ascii.eqb slash) head)
   then rstrip slash head else head,
   tail).

(** [posixpath.basename] *)
Definition basename (p : str) : str := snd (posix_split p).

Definition nonempty (s : str) : bool :=
  match s with [] => false | _ => true end.

(** [os.makedirs(name)]: the missing directories on the way are made
    first; the [FileExistsError] of that step is passed over, the one of
    the last step is not. Every call works on a shorter name: [fuel]
    bounds their number. *)
Fixpoint makedirs_from (fuel : nat) (umask now : Z) (name : str)
         (fs : filesystem) : outcome unit :=
  match fuel with
  | 0 => (fs, Raise RecursionError)
  | S fuel' =>
      let (head0, tail0) := posix_split name in
      let (head, tail) :=
        match tail0 with
        | [] => posix_split head0
        | _ => (head0, tail0)
        end in
      let mkdir_name := fun fs1 =>
        match os_mkdir umask now fs1 name with
        | Ok fs2 => (fs2, Ok tt)
        | Raise e => (fs1, Raise e)
        end in
      if nonempty head && nonempty tail && negb (path_exists fs head) then
        match makedirs_from fuel' umask now head fs with
        | (fs1, Ok _) | (fs1, Raise (OSError EEXIST)) =>
            if str_eqb tail curdir then (fs1, Ok tt) else mkdir_name fs1
        | (fs1, Raise e) => (fs1, Raise e)
        end
      else mkdir_name fs
  end.

(** [os.makedirs] (and [OSUtils.makedirs]) *)
Definition makedirs (umask now : Z) (name : str) (fs : filesystem)
  : outcome unit :=
  makedirs_from (S (length name)) umask now name fs.

Fixpoint position_eqb (p q : position) : bool :=
  match p, q with
  | [], [] => true
  | x :: p', y :: q' => str_eqb x y && position_eqb p' q'
  | _, _ => false
  end.

(** [shutil._samefile]: both paths name the same node. *)
Definition samefile (fs : filesystem) (a b : str) : bool :=
  match resolve fs a, resolve fs b with
  | Ok p, Ok q => position_eqb p q
  | _, _ => false
  end.

(** [shutil.copystat(src, dst)], [st] being the status of [src]: the
    permission bits and the modification time go over. *)
Definition copied_stat (st dst_st : stat_result) : stat_result :=
  mk_stat (Z.lor (Z.ldiff (st_mode dst_st) 4095) (Z.land (st_mode st) 4095))
          (st_size dst_st) (st_mtime st).

Definition copystat (st : stat_result) (o : option node) : option node :=
  match o with
  | Some (File dst_st data) => Some (File (copied_stat st dst_st) data)
  | Some (Dir dst_st es) => Some (Dir (copied_stat st dst_st) es)
  | None => None
  end.

(** [shutil.copy2(src, dst)] *)
Definition copy2 (umask now : Z) (src dst : str) (fs : filesystem)
  : outcome unit :=
  let dst := if path_isdir fs dst
             then posixpath.join2 dst (basename src) else dst in
  if samefile fs src dst then (fs, Raise SameFileError)
  else
    match read_binary fs src with
    | Raise e => (fs, Raise e)
    | Ok data =>
        match open_wb umask now fs dst data with
        | Raise e => (fs, Raise e)
        | Ok fs1 =>
            match os_stat fs1 src, resolve fs1 dst with
            | Ok st, Ok pos => (alter_fs (copystat st) pos fs1, Ok tt)
            | Raise e, _ => (fs1, Raise e)
            | _, Raise e => (fs1, Raise e)
            end
        end
    end.

(** A [for] loop over calls that change the file system. *)
Fixpoint each {A : Type} (l : list A) (body : A -> filesystem -> outcome unit)
         (fs : filesystem) : outcome unit :=
  match l with
  | [] => (fs, Ok tt)
  | x :: l' =>
      match body x fs with
      | (fs1, Ok _) => each l' body fs1
      | (fs1, Raise e) => (fs1, Raise e)
      end
  end.

(** [OSUtils.copytree(source, destination)]; [fuel] bounds the depth of
    the calls, as the recursion limit of the interpreter does. *)
Fixpoint copytree (fuel : nat) (umask now : Z) (source destination : str)
         (fs : filesystem) : outcome unit :=
  match fuel with
  | 0 => (fs, Raise RecursionError)
  | S fuel' =>
      match (if negb (path_exists fs destination)
             then makedirs umask now destination fs else (fs, Ok tt)) with
      | (fs1, Raise e) => (fs1, Raise e)
      | (fs1, Ok _) =>
          match listdir fs1 source with
          | Raise e => (fs1, Raise e)
          | Ok names =>
              each names
                   (fun name fs2 =>
                      let new_source := posixpath.join2 source name in
                      let new_destination :=
                        posixpath.join2 destination name in
                      if path_isdir fs2 new_source
                      then copytree fuel' umask now
                                    new_source new_destination fs2
                      else copy2 umask now new_source new_destination fs2)
                   fs1
          end
      end
  end.

(** What [copytree] makes of a tree: new directories with the entries in
    their order, and files with the content, the permission bits and the
    modification time of the originals. *)
Fixpoint copy_of (umask now : Z) (n : node) : node :=
  match n with
  | File st data =>
      File (copied_stat st (new_file_stat umask now data)) data
  | Dir _ es =>
      Dir (new_dir_stat umask now)
          (map (fun e => (fst e, copy_of umask now (snd e))) es)
  end.



(* ================================================================== *)
(** * Properties *)

Example split_ex : split slash (lit "a//b/") = [lit "a"; []; lit "b"; []].
Proof. reflexivity. Qed.

Example posix_normpath_ex1 :
  posixpath.normpath (lit "/a/./b/../c//d/") = lit "/a/c/d".
Proof. reflexivity. Qed.

Example posix_normpath_ex2 :
  posixpath.normpath (lit "//a/../../b") = lit "//b"
  /\ posixpath.normpath (lit "///a") = lit "/a"
  /\ posixpath.normpath (lit "../a/../../b") = lit "../../b"
  /\ posixpath.normpath (lit "a/..") = lit ".".
Proof. repeat split; reflexivity. Qed.

Example posix_relpath_ex :
  posixpath.relpath (lit "/home/u") (lit "src/a/b.txt") (lit "src") = Ok (lit "a/b.txt")
  /\ posixpath.relpath (lit "/home/u") (lit "/x/y") (lit "src") = Ok (lit "../../../x/y").
Proof. split; reflexivity. Qed.

Example nt_splitdrive_ex :
  ntpath.splitdrive (lit "C:\foo\bar") = (lit "C:", lit "\foo\bar")
  /\ ntpath.splitdrive (lit "//host/share/x/y") = (lit "//host/share", lit "/x/y")
  /\ ntpath.splitdrive (lit "\\host") = ([], lit "\\host")
  /\ ntpath.splitdrive (lit "foo\bar") = ([], lit "foo\bar").
Proof. repeat split; reflexivity. Qed.

Example nt_normpath_ex :
  ntpath.normpath (lit "C:/a/./b/../c") = lit "C:\a\c"
  /\ ntpath.normpath (lit "\a\..\..\b") = lit "\b"
  /\ ntpath.normpath (lit "a\..") = lit "."
  /\ ntpath.normpath (lit "..\a") = lit "..\a".
Proof. repeat split; reflexivity. Qed.

(** ** Characters and strings *)


Lemma str_eqb_eq (a b : str) : str_eqb a b = true <-> a = b.
Proof.
  revert b; induction a as [|x a IH]; intros [|y b]; simpl.
  - split; auto.
  - split; discriminate.
  - split; discriminate.
  - rewrite andb_true_iff, Ascii.eqb_eq, IH. split.
    + intros [-> ->]; reflexivity.
    + intros H; inversion H; auto.
Qed.

Lemma str_eqb_refl (a : str) : str_eqb a a = true.
Proof. apply str_eqb_eq; reflexivity. Qed.

Lemma str_eqb_neq (a b : str) : str_eqb a b = false <-> a <> b.
Proof.
  rewrite <- str_eqb_eq. destruct (str_eqb a b); split; congruence.
Qed.

Lemma lstrip_no_lead (c : ascii) (s : str) :
  starts_with_char c (lstrip c s) = false.
Proof.
  induction s as [|x s IH]; simpl; auto.
  destruct (Ascii.eqb x c) eqn:E; auto.
Qed.

Lemma lstrip_incl (c : ascii) (s : str) : incl (lstrip c s) s.
Proof.
  induction s as [|x s IH]; simpl.
  - apply incl_refl.
  - destruct (Ascii.eqb x c).
    + apply incl_tl; exact IH.
    + apply incl_refl.
Qed.

Lemma truncate_nul_incl (s : str) : incl (truncate_nul s) s.
Proof.
  induction s as [|x s IH]; simpl.
  - apply incl_refl.
  - destruct (Ascii.eqb x nul).
    + apply incl_nil_l.
    + apply incl_cons; [left; reflexivity | apply incl_tl; exact IH].
Qed.

Lemma truncate_nul_no_lead (c : ascii) (s : str) :
  starts_with_char c s = false -> starts_with_char c (truncate_nul s) = false.
Proof.
  destruct s as [|x s]; simpl; auto.
  destruct (Ascii.eqb x nul); simpl; auto.
Qed.


Lemma replace_not_in (c d : ascii) (s : str) :
  c <> d -> ~ In c (replace c d s).
Proof.
  intros Hcd Hin. unfold replace in Hin. apply in_map_iff in Hin.
  destruct Hin as [x [Hx _]].
  destruct (Ascii.eqb x c) eqn:E.
  - congruence.
  - apply Ascii.eqb_neq in E. congruence.
Qed.

Lemma replace_in (c d x : ascii) (s : str) :
  In x (replace c d s) -> In x s \/ x = d.
Proof.
  unfold replace. rewrite in_map_iff. intros [y [Hy Hin]].
  destruct (Ascii.eqb y c); subst; auto.
Qed.

Lemma replace_id (c d : ascii) (s : str) :
  existsb (Ascii.eqb c) s = false -> replace c d s = s.
Proof.
  induction s as [|x s IH]; simpl; auto.
  rewrite orb_false_iff. intros [Hx Hs].
  rewrite Ascii.eqb_sym, Hx. f_equal. apply IH; exact Hs.
Qed.

Lemma replace_first (c d x : ascii) (s : str) :
  starts_with_char x s = false -> x <> d ->
  starts_with_char x (replace c d s) = false.
Proof.
  destruct s as [|y s]; simpl; auto.
  intros Hy Hd. destruct (Ascii.eqb y c); auto.
  apply Ascii.eqb_neq. congruence.
Qed.

(** ** [ChaliceZipFile.write]: the entry it appends *)



Lemma create_zipinfo_inv h stat self fname arcname compress zinfo :
  _create_zipinfo h stat self fname arcname compress = Ok zinfo ->
  exists st,
    stat fname = Ok st
    /\ zinfo = mk_ZipInfo (stored_name h (arc_or fname arcname))
                          _default_time_time
                          (or_default compress (compression self))
                          (match h with Nt => 0%Z | Posix => 3%Z end)
                          (Z.shiftl (Z.land (st_mode st) 65535) 16)
                          (st_size st).
Proof.
  unfold _create_zipinfo. destruct (stat fname) as [st|e]; simpl; [|discriminate].
  intros H. exists st. split; [reflexivity|].
  inversion H; subst. reflexivity.
Qed.

Lemma create_zipinfo_total h stat self fname arcname compress st :
  stat fname = Ok st ->
  exists zinfo, _create_zipinfo h stat self fname arcname compress = Ok zinfo.
Proof.
  intros H. unfold _create_zipinfo. rewrite H. simpl. eexists; reflexivity.
Qed.

Lemma write_inv h stat read_binary self fname arcname compress self' :
  write h stat read_binary self fname arcname compress = Ok self' ->
  exists st data,
    stat fname = Ok st
    /\ read_binary fname = Ok data
    /\ _check_compression (or_default compress (compression self)) = Ok tt
    /\ compression self' = compression self
    /\ filelist self' =
       filelist self ++
       [(mk_ZipInfo (stored_name h (arc_or fname arcname))
                    _default_time_time
                    (or_default compress (compression self))
                    (match h with Nt => 0%Z | Posix => 3%Z end)
                    (Z.shiftl (Z.land (st_mode st) 65535) 16)
                    (Z.of_nat (length data)), data)].
Proof.
  unfold write.
  destruct (_create_zipinfo h stat self fname arcname compress) as [zi|e] eqn:Hz;
    simpl; [|discriminate].
  apply create_zipinfo_inv in Hz. destruct Hz as [st [Hst ->]].
  destruct (read_binary fname) as [data|e]; simpl; [|discriminate].
  unfold writestr; simpl.
  destruct (_check_compression (or_default compress (compression self)))
    as [[]|e] eqn:Hc; simpl; [|discriminate].
  intros H; inversion H; subst; simpl.
  exists st, data. repeat split; auto.
Qed.



Example write_app_py :
  write Posix stat1 read1 deflate_zip (lit "app.py") None None
  = Ok (mk_zip ZIP_DEFLATED
          [(mk_ZipInfo (lit "app.py") (1980, 1, 1, 0, 0, 0)%Z ZIP_DEFLATED 3
                       (33188 * 65536)%Z 8, app_py_data)]).
Proof. reflexivity. Qed.


(** ** C2: the stored date and time *)

(** C2. Every entry appended by [ChaliceZipFile.write] carries the fixed
    date and time 1980-01-01 00:00:00; whatever date and time the source
    file's modification time stands for ([localtime] is any conversion of
    [st_mtime]), the entry does not carry it when it differs from that
    constant. *)
Theorem C2_write_fixed_date_time :
  forall h stat read_binary self fname arcname compress self'
         (localtime : Z -> date_time_t),
    write h stat read_binary self fname arcname compress = Ok self' ->
    exists st zinfo data,
      stat fname = Ok st
      /\ filelist self' = filelist self ++ [(zinfo, data)]
      /\ date_time zinfo = (1980, 1, 1, 0, 0, 0)%Z
      /\ (localtime (st_mtime st) <> (1980, 1, 1, 0, 0, 0)%Z ->
          date_time zinfo <> localtime (st_mtime st)).
Proof.
  intros h stat read_binary self fname arcname compress self' localtime H.
  apply write_inv in H.
  destruct H as [st [data [Hst [_ [_ [_ Hfl]]]]]].
  eexists st, _, data. split; [exact Hst|]. split; [exact Hfl|].
  simpl. split; [reflexivity|].
  intros Hne Heq. apply Hne. symmetry. exact Heq.
Qed.

(** The property at [app.py], whose modification time is read as
    2018-11-04 00:00:00. *)
Lemma C2_write_fixed_date_time_witness :
  exists st zinfo data,
    stat1 (lit "app.py") = Ok st
    /\ filelist (mk_zip ZIP_DEFLATED
          [(mk_ZipInfo (lit "app.py") (1980, 1, 1, 0, 0, 0)%Z ZIP_DEFLATED 3
                       (33188 * 65536)%Z 8, app_py_data)])
       = filelist deflate_zip ++ [(zinfo, data)]
    /\ date_time zinfo = (1980, 1, 1, 0, 0, 0)%Z
    /\ ((fun _ : Z => (2018, 11, 4, 0, 0, 0)%Z) (st_mtime st)
          <> (1980, 1, 1, 0, 0, 0)%Z ->
        date_time zinfo <> (fun _ : Z => (2018, 11, 4, 0, 0, 0)%Z) (st_mtime st)).
Proof.
  exact (@C2_write_fixed_date_time Posix stat1 read1 deflate_zip (lit "app.py")
           None None _ (fun _ => (2018, 11, 4, 0, 0, 0)%Z) write_app_py).
Defined.

(** ** C6: the external attributes *)






(** ** C5: the compression method of an entry *)

(** What [compress_type or self.compression] selects. *)
Lemma write_compress_type h stat read_binary self fname arcname compress self' :
  write h stat read_binary self fname arcname compress = Ok self' ->
  exists zinfo data,
    filelist self' = filelist self ++ [(zinfo, data)]
    /\ compress_type zinfo = or_default compress (compression self).
Proof.
  intros H. apply write_inv in H.
  destruct H as [st [data [_ [_ [_ [_ Hfl]]]]]].
  eexists _, data. split; [exact Hfl | reflexivity].
Qed.

(** With no method given the entry takes the archive's default. *)
Lemma or_default_none (d : Z) : or_default None d = d.
Proof. reflexivity. Qed.

(** A method other than [ZIP_STORED] is taken as given. *)
Lemma or_default_nonzero (c d : Z) : c <> 0%Z -> or_default (Some c) d = c.
Proof.
  intros H. unfold or_default. destruct (Z.eqb_spec c 0); congruence.
Qed.

(** [ZIP_STORED] is 0, which [or] reads as absent. *)
Lemma or_default_stored (d : Z) : or_default (Some ZIP_STORED) d = d.
Proof. reflexivity. Qed.

(** C5. On an archive opened with deflate as its default, a [write] that
    passes [ZIP_STORED] explicitly appends an entry whose method is
    [ZIP_DEFLATED], not [ZIP_STORED]. *)
Theorem C5_explicit_store_is_deflated :
  write Posix stat1 read1 deflate_zip (lit "app.py") None (Some ZIP_STORED)
  = Ok (mk_zip ZIP_DEFLATED
          [(mk_ZipInfo (lit "app.py") _default_time_time ZIP_DEFLATED 3
                       (33188 * 65536)%Z 8, app_py_data)])
  /\ ZIP_DEFLATED <> ZIP_STORED.
Proof. split; [reflexivity | discriminate]. Qed.

(** ** C4: the stored entry name *)

Lemma starts_with_char_in (c : ascii) (s : str) :
  starts_with_char c s = true -> In c s.
Proof.
  destruct s as [|x s]; simpl; [discriminate|].
  intros H. apply Ascii.eqb_eq in H. left; exact H.
Qed.

Lemma starts_with_char_not_in (c : ascii) (s : str) :
  ~ In c s -> starts_with_char c s = false.
Proof.
  intros H. destruct (starts_with_char c s) eqn:E; auto.
  exfalso. apply H. apply starts_with_char_in. exact E.
Qed.

Lemma starts_with_char_incl_lstrip (c d : ascii) (s : str) :
  ~ In c s -> starts_with_char c (lstrip d s) = false.
Proof.
  intros H. apply starts_with_char_not_in.
  intros Hin. apply H. apply (lstrip_incl d s). exact Hin.
Qed.

Lemma split_incl (c : ascii) (s w : str) : In w (split c s) -> incl w s.
Proof.
  revert w; induction s as [|x s IH]; simpl; intros w.
  - intros [<-|[]]. apply incl_refl.
  - destruct (Ascii.eqb x c).
    + intros [<-|H]; [apply incl_nil_l | apply incl_tl; apply IH; exact H].
    + destruct (split c s) as [|w0 ws] eqn:E.
      * intros [<-|[]]. intros y [<-|[]]; left; reflexivity.
      * intros [<-|H].
        -- apply incl_cons; [left; reflexivity|].
           apply incl_tl. apply IH. left; reflexivity.
        -- apply incl_tl. apply IH. right; exact H.
Qed.

Lemma in_removelast (A : Type) (x : A) (l : list A) :
  In x (removelast l) -> In x l.
Proof.
  induction l as [|y l IH]; simpl; auto.
  destruct l as [|z l]; [intros []|].
  intros [<-|H]; [left; reflexivity | right; apply IH; exact H].
Qed.

Lemma join_in (sep : str) (l : list str) (c : ascii) :
  In c (join sep l) -> In c sep \/ exists w, In w l /\ In c w.
Proof.
  induction l as [|x xs IH]; simpl; [intros []|].
  destruct xs as [|y ys].
  - intros H. right. exists x. split; [left; reflexivity | exact H].
  - intros H. apply in_app_or in H. destruct H as [H|H].
    + right. exists x. split; [left; reflexivity | exact H].
    + apply in_app_or in H. destruct H as [H|H]; [left; exact H|].
      destruct (IH H) as [Hs|[w [Hw Hc]]]; [left; exact Hs|].
      right. exists w. split; [right; exact Hw | exact Hc].
Qed.

Lemma nt_normcomps_in (b : bool) (comps done : list str) (w : str) :
  In w (ntpath.normcomps b done comps) -> In w done \/ In w comps.
Proof.
  revert done; induction comps as [|comp rest IH]; simpl; intros done H; auto.
  destruct (str_eqb comp [] || str_eqb comp curdir).
  { destruct (IH _ H); auto. }
  assert (Hpush : In w (ntpath.normcomps b (done ++ [comp]) rest) ->
                  In w done \/ comp = w \/ In w rest).
  { intros H'. destruct (IH _ H') as [H1|H1]; auto.
    apply in_app_or in H1. destruct H1 as [H1|[H1|[]]]; auto. }
  destruct (str_eqb comp pardir); [|apply Hpush; exact H].
  destruct done as [|d ds].
  - destruct b; [destruct (IH _ H); auto | apply Hpush; exact H].
  - destruct (negb (str_eqb (last (d :: ds) []) pardir)); [|apply Hpush; exact H].
    destruct (IH _ H) as [H1|H1]; auto.
    left. apply in_removelast. exact H1.
Qed.

Lemma nt_splitdrive_app (p : str) :
  fst (ntpath.splitdrive p) ++ snd (ntpath.splitdrive p) = p.
Proof.
  unfold ntpath.splitdrive.
  repeat match goal with
         | |- context [if ?b then _ else _] => destruct b
         | |- context [match ?o with Some _ => _ | None => _ end] => destruct o
         end; cbn [fst snd]; auto using firstn_skipn.
Qed.

Lemma nt_normpath_special (path : str) :
  nt_special_prefix path = true -> ntpath.normpath path = path.
Proof.
  unfold nt_special_prefix, ntpath.normpath. intros ->. reflexivity.
Qed.

(** Outside these prefixes, [ntpath.normpath] builds its result from the
    characters of the path with [/] replaced, backslashes and dots. *)
Lemma nt_normpath_chars (path : str) (c : ascii) :
  nt_special_prefix path = false ->
  In c (ntpath.normpath path) ->
  In c (replace slash backslash path) \/ c = backslash \/ c = "."%char.
Proof.
  unfold nt_special_prefix, ntpath.normpath. intros ->.
  pose proof (nt_splitdrive_app (replace slash backslash path)) as Happ.
  destruct (ntpath.splitdrive (replace slash backslash path)) as [prefix0 path2].
  simpl in Happ. rewrite <- Happ.
  set (good := fun x : ascii =>
                 In x (prefix0 ++ path2) \/ x = backslash \/ x = "."%char).
  change (In c
    (let (prefix, path3) :=
       if startswith ntpath.sep path2
       then (prefix0 ++ ntpath.sep, lstrip backslash path2)
       else (prefix0, path2) in
     prefix ++
     join ntpath.sep
       match prefix with
       | [] =>
           match ntpath.normcomps (endswith ntpath.sep prefix) []
                   (split backslash path3) with
           | [] => [curdir]
           | _ :: _ => ntpath.normcomps (endswith ntpath.sep prefix) []
                         (split backslash path3)
           end
       | _ :: _ => ntpath.normcomps (endswith ntpath.sep prefix) []
                     (split backslash path3)
       end) -> good c).
  set (pp := if startswith ntpath.sep path2
             then (prefix0 ++ ntpath.sep, lstrip backslash path2)
             else (prefix0, path2)).
  assert (Hpre : forall x, In x (fst pp) -> good x).
  { intros x Hx. subst pp good. cbv beta.
    destruct (startswith ntpath.sep path2); simpl in Hx.
    - apply in_app_or in Hx. destruct Hx as [Hx|[Hx|[]]]; auto.
      left. apply in_or_app; auto.
    - left. apply in_or_app; auto. }
  assert (Hrest : forall x, In x (snd pp) -> good x).
  { intros x Hx. subst pp good. cbv beta.
    destruct (startswith ntpath.sep path2); simpl in Hx.
    - apply lstrip_incl in Hx. left. apply in_or_app; auto.
    - left. apply in_or_app; auto. }
  destruct pp as [prefix path3]. simpl in Hpre, Hrest.
  intros H. apply in_app_or in H. destruct H as [H|H]; [apply Hpre; exact H|].
  apply join_in in H. destruct H as [[H|[]]|[w [Hw Hc]]];
    [right; left; auto|].
  assert (Hcomps : In w (ntpath.normcomps (endswith ntpath.sep prefix) []
                           (split backslash path3)) -> good c).
  { intros Hin. apply nt_normcomps_in in Hin. destruct Hin as [[]|Hin].
    apply Hrest. apply (split_incl _ _ _ Hin). exact Hc. }
  destruct prefix as [|p0 ps].
  - destruct (ntpath.normcomps (endswith ntpath.sep []) [] (split backslash path3))
      as [|c0 cs] eqn:E.
    + destruct Hw as [<-|[]]. destruct Hc as [<-|[]]. right; right; reflexivity.
    + apply Hcomps. exact Hw.
  - apply Hcomps. exact Hw.
Qed.

Lemma nt_normpath_no_slash (path : str) :
  nt_special_prefix path = false -> ~ In slash (ntpath.normpath path).
Proof.
  intros Hs Hin. apply (nt_normpath_chars _ _ Hs) in Hin.
  destruct Hin as [Hin|[Hin|Hin]]; try discriminate.
  revert Hin. apply replace_not_in. discriminate.
Qed.

Lemma nt_normpath_keeps_out (path : str) (c : ascii) :
  ~ In c path -> c <> backslash -> c <> "."%char ->
  ~ In c (ntpath.normpath path).
Proof.
  intros Hc Hb Hd Hin.
  destruct (nt_special_prefix path) eqn:Hs.
  - rewrite (nt_normpath_special _ Hs) in Hin. auto.
  - apply (nt_normpath_chars _ _ Hs) in Hin.
    destruct Hin as [Hin|[Hin|Hin]]; auto.
    apply replace_in in Hin. tauto.
Qed.

Lemma startswith_app (p s : str) :
  startswith p s = true -> exists r, s = p ++ r.
Proof.
  revert s; induction p as [|x p IH]; intros s; simpl.
  - intros _. exists s. reflexivity.
  - destruct s as [|y s]; [discriminate|].
    rewrite andb_true_iff, Ascii.eqb_eq. intros [-> H].
    destruct (IH _ H) as [r ->]. exists r. reflexivity.
Qed.

(** After [lstrip], the normalised name starts neither with a backslash
    nor with a forward slash. *)
Lemma nt_normpath_lstrip_no_slash (path : str) :
  starts_with_char slash (lstrip backslash (ntpath.normpath path)) = false.
Proof.
  destruct (nt_special_prefix path) eqn:Hs.
  - rewrite (nt_normpath_special _ Hs).
    unfold nt_special_prefix in Hs. apply orb_true_iff in Hs.
    destruct Hs as [Hs|Hs]; apply startswith_app in Hs;
      destruct Hs as [r ->]; reflexivity.
  - apply starts_with_char_incl_lstrip. apply nt_normpath_no_slash. exact Hs.
Qed.

Lemma startswith_char (c : ascii) (s : str) :
  startswith [c] s = starts_with_char c s.
Proof.
  destruct s as [|x s]; cbn [startswith starts_with_char]; [reflexivity|].
  rewrite andb_true_r. apply Ascii.eqb_sym.
Qed.

Lemma stored_name_posix (a : str) :
  stored_name Posix a = truncate_nul (lstrip slash (posixpath.normpath a)).
Proof. reflexivity. Qed.

Lemma stored_name_nt (a : str) :
  stored_name Nt a =
  replace backslash slash
    (truncate_nul
       (lstrip backslash (ntpath.normpath (snd (ntpath.splitdrive a))))).
Proof.
  unfold stored_name, normalized_filename. simpl.
  match goal with
  | |- (if existsb ?f ?s then _ else _) = _ => destruct (existsb f s) eqn:E
  end; [reflexivity|].
  symmetry. apply replace_id. exact E.
Qed.

Lemma replace_sep_no_lead_slash (s : str) :
  starts_with_char slash s = false ->
  starts_with_char backslash s = false ->
  starts_with_char slash (replace backslash slash s) = false.
Proof.
  destruct s as [|x s]; simpl; auto.
  intros H1 H2. rewrite H2. exact H1.
Qed.

Lemma stored_name_forward_slash (h : Host) (a : str) :
  forward_slash_separated h (stored_name h a).
Proof.
  destruct h; unfold forward_slash_separated; simpl; [reflexivity|].
  rewrite stored_name_nt. intros H. exfalso. revert H.
  apply replace_not_in. discriminate.
Qed.

Lemma stored_name_no_leading_separator (h : Host) (a : str) :
  no_leading_separator h (stored_name h a).
Proof.
  destruct h; unfold no_leading_separator; simpl.
  - rewrite stored_name_posix.
    assert (H : starts_with_char slash
                  (truncate_nul (lstrip slash (posixpath.normpath a))) = false)
      by (apply truncate_nul_no_lead, lstrip_no_lead).
    split; exact H.
  - rewrite stored_name_nt. split.
    + apply replace_sep_no_lead_slash.
      * apply truncate_nul_no_lead, nt_normpath_lstrip_no_slash.
      * apply truncate_nul_no_lead, lstrip_no_lead.
    + apply starts_with_char_not_in. apply replace_not_in. discriminate.
Qed.

(** A name without a colon that starts with no separator has no drive. *)
Lemma nt_splitdrive_none (p : str) :
  ~ In colon p ->
  starts_with_char slash p = false ->
  starts_with_char backslash p = false ->
  ntpath.splitdrive p = ([], p).
Proof.
  intros Hc Hs Hb. unfold ntpath.splitdrive.
  destruct p as [|x [|y r]]; try reflexivity.
  cbn [length Nat.leb]. cbv zeta.
  simpl in Hs, Hb.
  assert (E1 : str_eqb (slice 0 2 (replace slash backslash (x :: y :: r)))
                       (ntpath.sep ++ ntpath.sep) = false).
  { simpl. rewrite Hs, Hb. reflexivity. }
  rewrite E1. cbn [andb].
  assert (E2 : str_eqb (slice 1 2 (replace slash backslash (x :: y :: r)))
                       [colon] = false).
  { simpl. destruct (Ascii.eqb y slash) eqn:Ey; [reflexivity|].
    destruct (Ascii.eqb y colon) eqn:Eyc; [|reflexivity].
    apply Ascii.eqb_eq in Eyc. exfalso. apply Hc. right; left; auto. }
  rewrite E2. reflexivity.
Qed.

Lemma stored_name_nt_no_colon (a : str) :
  ~ In colon (snd (ntpath.splitdrive a)) -> ~ In colon (stored_name Nt a).
Proof.
  intros H Hin. rewrite stored_name_nt in Hin.
  apply replace_in in Hin. destruct Hin as [Hin|Hin]; [|discriminate].
  apply truncate_nul_incl, lstrip_incl in Hin. revert Hin.
  apply nt_normpath_keeps_out; [exact H | discriminate | discriminate].
Qed.

Lemma stored_name_no_drive (h : Host) (a : str) :
  h = Posix \/ ~ In colon (snd (splitdrive h a)) ->
  splitdrive h (stored_name h a) = ([], stored_name h a).
Proof.
  destruct h; [reflexivity|]. intros [H|H]; [discriminate|]. simpl in *.
  pose proof (stored_name_no_leading_separator Nt a) as [H1 H2].
  apply nt_splitdrive_none; auto. apply stored_name_nt_no_colon. exact H.
Qed.

Lemma stored_name_relative (h : Host) (a : str) :
  h = Posix \/ ~ In colon (snd (splitdrive h a)) ->
  relative h (stored_name h a).
Proof.
  intros H. pose proof (stored_name_no_leading_separator h a) as [H1 H2].
  unfold relative. destruct h; simpl in *.
  - unfold posixpath.isabs, posixpath.sep.
    rewrite startswith_char. exact H1.
  - unfold ntpath.isabs.
    change ntpath.splitdrive with (splitdrive Nt).
    rewrite (stored_name_no_drive Nt a H). simpl.
    destruct (stored_name Nt a) as [|x s]; simpl in *; auto.
    rewrite H1, H2. reflexivity.
Qed.

(** C4 (as amended). Every entry appended by [ChaliceZipFile.write], with
    the arcname given or derived from the file name, on either host, has a
    name in which the only separator is the forward slash and which starts
    with no separator. On a POSIX host the name is relative and has no
    drive; on a Windows host it is relative and has no drive when the
    arcname, its (first) drive taken off, holds no colon. *)
Theorem C4_write_entry_name :
  forall h stat read_binary self fname arcname compress self',
    write h stat read_binary self fname arcname compress = Ok self' ->
    exists zinfo data,
      filelist self' = filelist self ++ [(zinfo, data)]
      /\ forward_slash_separated h (filename zinfo)
      /\ no_leading_separator h (filename zinfo)
      /\ (h = Posix \/ ~ In colon (snd (splitdrive h (arc_or fname arcname))) ->
          no_drive h (filename zinfo) /\ relative h (filename zinfo)).
Proof.
  intros h stat read_binary self fname arcname compress self' H.
  apply write_inv in H.
  destruct H as [st [data [_ [_ [_ [_ Hfl]]]]]].
  eexists _, data. split; [exact Hfl|]. cbn [filename].
  split; [apply stored_name_forward_slash|].
  split; [apply stored_name_no_leading_separator|].
  intros Hc. split.
  - unfold no_drive. rewrite (stored_name_no_drive _ _ Hc). reflexivity.
  - apply stored_name_relative. exact Hc.
Qed.

Example write_nt_arcname :
  write Nt stat1 read1 deflate_zip (lit "app.py") (Some (lit "C:\pkg//sub\..\app.py")) None
  = Ok (mk_zip ZIP_DEFLATED
          [(mk_ZipInfo (lit "pkg/app.py") _default_time_time ZIP_DEFLATED 0
                       (33188 * 65536)%Z 8, app_py_data)]).
Proof. reflexivity. Qed.

Lemma C4_write_entry_name_witness :
  exists zinfo data,
    filelist (mk_zip ZIP_DEFLATED
          [(mk_ZipInfo (lit "pkg/app.py") _default_time_time ZIP_DEFLATED 0
                       (33188 * 65536)%Z 8, app_py_data)])
    = filelist deflate_zip ++ [(zinfo, data)]
    /\ forward_slash_separated Nt (filename zinfo)
    /\ no_leading_separator Nt (filename zinfo)
    /\ (Nt = Posix \/
        ~ In colon (snd (splitdrive Nt
                           (arc_or (lit "app.py")
                                   (Some (lit "C:\pkg//sub\..\app.py"))))) ->
        no_drive Nt (filename zinfo) /\ relative Nt (filename zinfo)).
Proof.
  exact (@C4_write_entry_name Nt stat1 read1 deflate_zip (lit "app.py")
           (Some (lit "C:\pkg//sub\..\app.py")) None _ write_nt_arcname).
Defined.

(** The hypothesis of the Windows case holds at that arcname. *)
Example write_nt_arcname_no_colon :
  ~ In colon (snd (splitdrive Nt (lit "C:\pkg//sub\..\app.py"))).
Proof.
  simpl. intros H.
  repeat (destruct H as [H|H]; [discriminate H|]). exact H.
Qed.

(** C4 (as stated) fails on a Windows host: an arcname with two drive
    specifications keeps the second one, and the stored name [D:/foo] has
    the drive [D:] and is absolute. *)
Lemma C4_counterexample :
  exists self' zinfo data,
    write Nt stat1 read1 deflate_zip (lit "app.py") (Some (lit "C:D:\foo")) None
    = Ok self'
    /\ filelist self' = filelist deflate_zip ++ [(zinfo, data)]
    /\ filename zinfo = lit "D:/foo"
    /\ ~ no_drive Nt (filename zinfo)
    /\ ~ relative Nt (filename zinfo).
Proof.
  eexists _, _, _. split; [reflexivity|]. split; [reflexivity|].
  split; [reflexivity|]. split; intros H; discriminate H.
Qed.

(** ** The file system: running the definitions *)

Example resolve_ex :
  resolve fs0 (lit "src/a/../a/./c//d.txt")
  = Ok [lit "home"; lit "u"; lit "src"; lit "a"; lit "c"; lit "d.txt"]
  /\ resolve fs0 (lit "/home/u/src/") = Ok [lit "home"; lit "u"; lit "src"]
  /\ resolve fs0 (lit "src/a/b.txt/") = Raise (OSError ENOTDIR)
  /\ resolve fs0 (lit "src/x") = Raise (OSError ENOENT)
  /\ resolve fs0 (lit "/../..") = Ok [].
Proof. repeat split; reflexivity. Qed.

Example walk_ex :
  os_walk fs0 (lit "src")
  = [(lit "src", [lit "a"], []);
     (lit "src/a", [lit "c"], [lit "b.txt"]);
     (lit "src/a/c", [], [lit "d.txt"])].
Proof. reflexivity. Qed.

Example create_zip_file_ex :
  exists z, create_zip_file fs0 (lit "src") = Ok z
            /\ map (fun e => filename (fst e)) (filelist z)
               = [lit "a/b.txt"; lit "a/c/d.txt"].
Proof. eexists. split; reflexivity. Qed.

(** ** Induction on trees *)


(** ** [split] and [join] *)

Lemma split_nonnil (c : ascii) (s : str) : split c s <> [].
Proof.
  destruct s as [|x s]; simpl; [discriminate|].
  destruct (Ascii.eqb x c); [discriminate|].
  destruct (split c s); discriminate.
Qed.

Lemma split_no_sep (c : ascii) (s : str) : ~ In c s -> split c s = [s].
Proof.
  induction s as [|x s IH]; simpl; intros H; [reflexivity|].
  destruct (Ascii.eqb x c) eqn:E.
  - apply Ascii.eqb_eq in E. exfalso. apply H. left; exact E.
  - rewrite IH; [reflexivity|]. intros Hin. apply H. right; exact Hin.
Qed.

Lemma split_app_sep (c : ascii) (a b : str) :
  split c (a ++ c :: b) = split c a ++ split c b.
Proof.
  induction a as [|x a IH]; simpl.
  - rewrite Ascii.eqb_refl. reflexivity.
  - destruct (Ascii.eqb x c); [rewrite IH; reflexivity|].
    rewrite IH. destruct (split c a) as [|w ws] eqn:E.
    + exfalso. exact (split_nonnil _ _ E).
    + reflexivity.
Qed.

(** Appending characters other than the separator extends the last
    component. *)
Lemma split_app_no_sep (c : ascii) (a n : str) :
  ~ In c n ->
  split c (a ++ n) = removelast (split c a) ++ [last (split c a) [] ++ n].
Proof.
  intros Hn. induction a as [|x a IH]; simpl.
  - apply split_no_sep. exact Hn.
  - destruct (Ascii.eqb x c).
    + rewrite IH. destruct (split c a) as [|w ws] eqn:E.
      * exfalso. exact (split_nonnil _ _ E).
      * reflexivity.
    + rewrite IH. destruct (split c a) as [|w ws] eqn:E.
      * exfalso. exact (split_nonnil _ _ E).
      * destruct ws as [|w' ws']; reflexivity.
Qed.

Lemma split_join (c : ascii) (l : list str) :
  l <> [] -> Forall (fun w => ~ In c w) l -> split c (join [c] l) = l.
Proof.
  induction l as [|x xs IH]; [congruence|].
  intros _ H. inversion H as [|? ? Hx Hxs]; subst.
  destruct xs as [|y ys].
  - simpl. apply split_no_sep. exact Hx.
  - change (join [c] (x :: y :: ys)) with (x ++ c :: join [c] (y :: ys)).
    rewrite split_app_sep, (split_no_sep _ _ Hx), IH; [reflexivity|discriminate|exact Hxs].
Qed.


(** ** Valid names *)

Lemma existsb_eqb_false (c : ascii) (s : str) :
  existsb (Ascii.eqb c) s = false <-> ~ In c s.
Proof.
  split.
  - intros H Hin. assert (E : existsb (Ascii.eqb c) s = true).
    { apply existsb_exists. exists c. split; [exact Hin | apply Ascii.eqb_refl]. }
    congruence.
  - intros H. destruct (existsb (Ascii.eqb c) s) eqn:E; [|reflexivity].
    apply existsb_exists in E. destruct E as [x [Hin Hx]].
    apply Ascii.eqb_eq in Hx. subst. contradiction.
Qed.

Lemma valid_name_spec (n : str) :
  valid_name n = true <->
  n <> [] /\ n <> curdir /\ n <> pardir /\ ~ In slash n /\ ~ In nul n.
Proof.
  unfold valid_name.
  rewrite !andb_true_iff, !negb_true_iff, !str_eqb_neq, !existsb_eqb_false.
  tauto.
Qed.





(** ** [posixpath]: components of joined and normalised paths *)


Lemma endswith_nil (c : ascii) : endswith [c] [] = false.
Proof. reflexivity. Qed.







Lemma posix_normcomps_app (b : bool) (xs ys acc : list str) :
  posixpath.normcomps b acc (xs ++ ys)
  = posixpath.normcomps b (posixpath.normcomps b acc xs) ys.
Proof.
  revert acc; induction xs as [|x xs IH]; intros acc; simpl; [reflexivity|].
  repeat match goal with |- context [if ?c then _ else _] => destruct c end;
    apply IH.
Qed.





Lemma split_cons_sep (c : ascii) (s : str) : split c (c :: s) = [] :: split c s.
Proof. simpl. rewrite Ascii.eqb_refl. reflexivity. Qed.

Lemma split_no_sep_in (c : ascii) (s w : str) : In w (split c s) -> ~ In c w.
Proof.
  revert w; induction s as [|x s IH]; simpl; intros w.
  - intros [<-|[]] [].
  - destruct (Ascii.eqb x c) eqn:E.
    + intros [<-|H]; [intros [] | apply IH; exact H].
    + apply Ascii.eqb_neq in E.
      destruct (split c s) as [|w0 ws] eqn:Es.
      * intros [<-|[]] [H|[]]. congruence.
      * intros [<-|H].
        -- intros [H|H]; [congruence|]. revert H. apply IH. left; reflexivity.
        -- apply IH. right; exact H.
Qed.

Lemma Forall_removelast (A : Type) (P : A -> Prop) (l : list A) :
  Forall P l -> Forall P (removelast l).
Proof.
  intros H. apply Forall_forall. intros x Hx.
  apply in_removelast in Hx. revert x Hx. apply Forall_forall. exact H.
Qed.

Lemma posix_normcomps_clean (b : bool) (comps acc : list str) :
  Forall clean acc -> Forall (fun w => ~ In slash w) comps ->
  Forall clean (posixpath.normcomps b acc comps).
Proof.
  revert acc; induction comps as [|c comps IH]; intros acc Ha Hc; simpl; auto.
  inversion Hc as [|? ? Hc1 Hc2]; subst.
  destruct (str_eqb c [] || str_eqb c curdir) eqn:E; [apply IH; assumption|].
  apply orb_false_iff in E. destruct E as [E _]. apply str_eqb_neq in E.
  match goal with |- context [if ?x then _ else _] => destruct x end.
  - apply IH; [|assumption]. apply Forall_app. split; [assumption|].
    constructor; [split; assumption | constructor].
  - apply IH; [|assumption]. apply Forall_removelast. assumption.
Qed.













(** ** Lookup and resolution *)

Lemma lookup_app (n : node) (p q : position) :
  lookup n (p ++ q)
  = match lookup n p with Some m => lookup m q | None => None end.
Proof.
  revert n; induction p as [|c p IH]; intros n; simpl; [reflexivity|].
  destruct n as [st data|st es]; [reflexivity|].
  destruct (assoc c es); [apply IH | reflexivity].
Qed.

Lemma lookup_snoc (r : node) (pos : position) (st : stat_result)
      (es : list (str * node)) (name : str) :
  lookup r pos = Some (Dir st es) ->
  lookup r (pos ++ [name]) = assoc name es.
Proof.
  intros H. rewrite lookup_app, H. simpl. destruct (assoc name es); reflexivity.
Qed.


Lemma assoc_in (es : list (str * node)) (n : str) (x : node) :
  assoc n es = Some x -> In (n, x) es.
Proof.
  induction es as [|[m y] es IH]; simpl; [discriminate|].
  destruct (str_eqb m n) eqn:E.
  - apply str_eqb_eq in E. intros H; inversion H; subst. left; reflexivity.
  - intros H. right. apply IH. exact H.
Qed.

Lemma resolve_comps_app (r : node) (xs ys : list str) (cur : position) :
  resolve_comps r cur (xs ++ ys)
  = (cur' <- resolve_comps r cur xs ;; resolve_comps r cur' ys).
Proof.
  revert cur; induction xs as [|x xs IH]; intros cur; simpl; [reflexivity|].
  destruct (lookup r cur) as [[st data|st es]|]; try reflexivity.
  destruct (str_eqb x [] || str_eqb x curdir); [apply IH|].
  destruct (str_eqb x pardir); [apply IH|].
  destruct (lookup r (cur ++ [x])); [apply IH | reflexivity].
Qed.




(** ** [foreach] *)




(** ** Names that [normalized_filename] leaves as they are *)







(** ** [create_zip_file]: the archive it writes *)


Lemma wf_dir_inv (st : stat_result) (es : list (str * node)) :
  wf_node (Dir st es) = true ->
  nodupb (map fst es) = true
  /\ forall name m, In (name, m) es -> valid_name name = true /\ wf_node m = true.
Proof.
  simpl. rewrite !andb_true_iff, !forallb_forall. intros [[H1 H2] H3].
  split; [exact H2|]. intros name m Hin. split.
  - apply (H1 (name, m)). exact Hin.
  - apply (H3 (name, m)). exact Hin.
Qed.








(** ** The files of the walk are the files of the tree, each once *)

Lemma nodupb_NoDup (l : list str) : nodupb l = true -> NoDup l.
Proof.
  induction l as [|x l IH]; simpl; [constructor|].
  rewrite andb_true_iff, negb_true_iff. intros [Hx Hl].
  constructor; [|apply IH; exact Hl].
  intros Hin. assert (E : existsb (str_eqb x) l = true).
  { apply existsb_exists. exists x. split; [exact Hin | apply str_eqb_refl]. }
  congruence.
Qed.







Lemma node_at_inv (fs : filesystem) (p : str) (n : node) :
  node_at fs p = Ok n ->
  exists pos, resolve fs p = Ok pos /\ lookup (root fs) pos = Some n.
Proof.
  unfold node_at. destruct (resolve fs p) as [pos|e]; [|discriminate].
  simpl. destruct (lookup (root fs) pos) as [m|] eqn:E; [|discriminate].
  intros H; inversion H; subst. exists pos. split; [reflexivity | exact E].
Qed.




(** ** C7: one entry per file *)


Example fs0_wf : wf_fs fs0 = true.
Proof. reflexivity. Qed.



(** ** C1: what the archive depends on *)







(** ** Changing the tree *)

Lemma assoc_alter_entry (c c' : str) (g : option node -> option node)
      (es : list (str * node)) :
  nodupb (map fst es) = true ->
  assoc c' (alter_entry c g es)
  = if str_eqb c c' then g (assoc c es) else assoc c' es.
Proof.
  induction es as [|[n x] es IH]; intros Hnd.
  - simpl. destruct (g None) as [m|]; simpl.
    + destruct (str_eqb c c'); reflexivity.
    + destruct (str_eqb c c'); reflexivity.
  - simpl in Hnd. apply andb_true_iff in Hnd. destruct Hnd as [Hn Hnd].
    apply negb_true_iff in Hn.
    cbn [alter_entry assoc]. destruct (str_eqb n c) eqn:Enc.
    + apply str_eqb_eq in Enc. subst n.
      destruct (g (Some x)) as [m|]; cbn [assoc].
      * destruct (str_eqb c c'); reflexivity.
      * destruct (str_eqb c c') eqn:Ecc; [|reflexivity].
        apply str_eqb_eq in Ecc. subst c'.
        destruct (assoc c es) as [y|] eqn:Ea; [|reflexivity].
        apply assoc_in in Ea. exfalso.
        assert (E : existsb (str_eqb c) (map fst es) = true).
        { apply existsb_exists. exists c. split; [|apply str_eqb_refl].
          apply in_map_iff. exists (c, y). split; [reflexivity | exact Ea]. }
        congruence.
    + cbn [assoc]. rewrite (IH Hnd).
      destruct (str_eqb n c') eqn:Enc'; [|reflexivity].
      apply str_eqb_eq in Enc'. subst c'.
      destruct (str_eqb c n) eqn:Ecn; [|reflexivity].
      apply str_eqb_eq in Ecn. subst c. rewrite str_eqb_refl in Enc. discriminate.
Qed.

Lemma wf_child (st : stat_result) (es : list (str * node)) (c : str) (m : node) :
  wf_node (Dir st es) = true -> assoc c es = Some m -> wf_node m = true.
Proof.
  intros Hwf Ha. destruct (wf_dir_inv _ _ Hwf) as [_ Hes].
  apply (Hes c m). apply assoc_in. exact Ha.
Qed.

Lemma alter_none (f : option node -> option node) (pos : position) :
  pos <> [] -> alter f pos None = None.
Proof. destruct pos; [congruence | reflexivity]. Qed.



(** Resolution in a tree that has no more succeeds only where it
    succeeds in the larger tree, with the same position. *)
Lemma resolve_comps_shrinks (r2 r1 : node) :
  shrinks r2 r1 ->
  forall comps cur q,
    resolve_comps r2 cur comps = Ok q -> resolve_comps r1 cur comps = Ok q.
Proof.
  intros Hs. induction comps as [|c comps IH]; intros cur q H; [exact H|].
  cbn [resolve_comps] in *.
  destruct (lookup r2 cur) as [[st data|st es]|] eqn:E2; try discriminate.
  destruct (Hs _ _ E2) as [n1 [E1 Hk]]. rewrite E1.
  destruct n1 as [st1 d1|st1 es1]; [discriminate|].
  destruct (str_eqb c [] || str_eqb c curdir); [apply IH; exact H|].
  destruct (str_eqb c pardir); [apply IH; exact H|].
  destruct (lookup r2 (cur ++ [c])) as [m2|] eqn:Em; [|discriminate].
  destruct (Hs _ _ Em) as [m1 [Em1 _]]. rewrite Em1. apply IH; exact H.
Qed.

Lemma alter_fs_root (f : option node -> option node) (pos : position)
      (fs : filesystem) :
  pos <> [] ->
  exists r, alter f pos (Some (root fs)) = Some r
            /\ alter_fs f pos fs = mk_fs r (cwd fs).
Proof.
  intros Hp. unfold alter_fs. destruct pos as [|c cs]; [congruence|].
  cbn [alter]. destruct (root fs) as [st data|st es]; eexists; split; reflexivity.
Qed.

Lemma wf_root (fs : filesystem) : wf_fs fs = true -> wf_node (root fs) = true.
Proof.
  unfold wf_fs. rewrite !andb_true_iff. tauto.
Qed.



(** ** C9 and C10: [remove_file] *)

Lemma resolve_comps_oserror (r : node) (comps : list str) (cur : position) (e : exn) :
  resolve_comps r cur comps = Raise e -> exists n, e = OSError n.
Proof.
  revert cur; induction comps as [|c comps IH]; intros cur; simpl; [discriminate|].
  destruct (lookup r cur) as [[st data|st es]|];
    try (intros H; inversion H; eauto; fail).
  destruct (str_eqb c [] || str_eqb c curdir); [apply IH|].
  destruct (str_eqb c pardir); [apply IH|].
  destruct (lookup r (cur ++ [c])); [apply IH|].
  intros H; inversion H; eauto.
Qed.

Lemma resolve_oserror (fs : filesystem) (p : str) (e : exn) :
  resolve fs p = Raise e -> exists n, e = OSError n.
Proof.
  unfold resolve. destruct p as [|p0 p].
  - intros H; inversion H; eauto.
  - apply resolve_comps_oserror.
Qed.

(** [os.remove] raises nothing but [OSError]. *)
Lemma os_remove_oserror (fs : filesystem) (p : str) (e : exn) :
  os_remove fs p = Raise e -> exists n, e = OSError n.
Proof.
  unfold os_remove. destruct (resolve fs p) as [pos|e'] eqn:Hr; simpl.
  - destruct (lookup (root fs) pos) as [[st data|st es]|];
      intros H; inversion H; eauto.
  - intros H; inversion H; subst. eapply resolve_oserror; eassumption.
Qed.






(** C10. Whatever the deletion primitive does, when it raises an
    [OSError], of any errno, [remove_file] returns normally and the file
    system is as it was. *)
Theorem C10_remove_file_swallows_oserror :
  forall (remove : filesystem -> str -> result filesystem) fs p n,
    remove fs p = Raise (OSError n) ->
    remove_file_with remove fs p = (fs, Ok tt).
Proof.
  intros remove fs p n H. unfold remove_file_with. rewrite H. reflexivity.
Qed.

(** Unlinking a directory raises [OSError]. *)
Example os_remove_directory :
  os_remove fs0 (lit "src/a") = Raise (OSError EISDIR).
Proof. reflexivity. Qed.

Lemma C10_remove_file_swallows_oserror_witness :
  remove_file_with os_remove fs0 (lit "src/a") = (fs0, Ok tt).
Proof.
  exact (C10_remove_file_swallows_oserror os_remove fs0 (lit "src/a") EISDIR
           os_remove_directory).
Defined.

(** A primitive that denies the deletion: the error is swallowed too. *)
Example remove_file_permission_denied :
  remove_file_with (fun _ _ => Raise (OSError EACCES)) fs0 (lit "src/a/b.txt")
  = (fs0, Ok tt).
Proof. reflexivity. Qed.

(** Only [OSError] is caught. *)
Lemma remove_file_other_exception
      (remove : filesystem -> str -> result filesystem) fs p e :
  remove fs p = Raise e -> (forall n, e <> OSError n) ->
  remove_file_with remove fs p = (fs, Raise e).
Proof.
  intros H Hne. unfold remove_file_with. rewrite H.
  destruct e; try reflexivity. exfalso. apply (Hne e). reflexivity.
Qed.

(** ** C8: [tempdir] *)

Example tempdir_ex :
  tempdir [lit "tmp"] [lit "abc"] body_fill_and_fail fs0
  = (fs0, Raise (OtherError 7)).
Proof. reflexivity. Qed.





(** [rmtree] of a path that names nothing raises and changes nothing. *)
Lemma rmtree_absent (fs : filesystem) (p : str) :
  path_exists fs p = false -> exists n, rmtree fs p = Raise (OSError n).
Proof.
  unfold path_exists, node_at, rmtree.
  destruct (resolve fs p) as [pos|e] eqn:Hr; simpl.
  - destruct (lookup (root fs) pos); [discriminate|]. eauto.
  - intros _. destruct (resolve_oserror _ _ _ Hr) as [n ->]. eauto.
Qed.



(** When the path of the directory names nothing at the end of the body,
    the [finally] clause raises the [OSError] of [rmtree], whatever the
    body returned or raised. *)
Lemma tempdir_removed_by_body
      (A : Type) tmp names (body : str -> filesystem -> outcome A)
      fs d fs1 fs2 r :
  mkdtemp tmp names fs = Ok (d, fs1) ->
  body d fs1 = (fs2, r) ->
  path_exists fs2 d = false ->
  exists n, tempdir tmp names body fs = (fs2, Raise (OSError n)).
Proof.
  intros Hmk Hbody Hgone. destruct (rmtree_absent _ _ Hgone) as [n Hn].
  exists n. unfold tempdir. rewrite Hmk, Hbody, Hn. reflexivity.
Qed.


(** ** [extract_zipfile]: running the definitions *)

Example extract_ex :
  exists z fs',
    create_zip_file fs0 (lit "src") = Ok z
    /\ extract_zipfile 18 0 fs0 z (lit "../../tmp/./") = Ok fs'
    /\ read_binary fs' (lit "/tmp/a/c/d.txt") = read_binary fs0 (lit "src/a/c/d.txt")
    /\ read_binary fs' (lit "/tmp/a/b.txt") = read_binary fs0 (lit "src/a/b.txt")
    /\ os_stat fs0 (lit "src/a/c/d.txt") = Ok (mk_stat 33261 3 1541289601)
    /\ os_stat fs' (lit "/tmp/a/c/d.txt") = Ok (mk_stat 33188 3 0).
Proof. eexists _, _. repeat split; reflexivity. Qed.

(** ** Writing into the tree *)

Lemma NoDup_nodupb (l : list str) : NoDup l -> nodupb l = true.
Proof.
  induction 1 as [|x l Hx _ IH]; simpl; [reflexivity|].
  rewrite IH, andb_true_r. apply negb_true_iff.
  destruct (existsb (str_eqb x) l) eqn:E; [|reflexivity].
  apply existsb_exists in E. destruct E as [y [Hy Exy]].
  apply str_eqb_eq in Exy. subst y. contradiction.
Qed.

Lemma wf_dir_intro (st : stat_result) (es : list (str * node)) :
  NoDup (map fst es) ->
  (forall name m, In (name, m) es -> valid_name name = true /\ wf_node m = true) ->
  wf_node (Dir st es) = true.
Proof.
  intros Hnd H. simpl. rewrite (NoDup_nodupb _ Hnd), andb_true_r.
  apply andb_true_iff. split; apply forallb_forall; intros [name m] Hin;
    apply (H name m Hin).
Qed.




Lemma lookup_alter_entry (st : stat_result) (es : list (str * node))
      (c c' : str) (g : option node -> option node) (q : position) :
  nodupb (map fst es) = true ->
  lookup (Dir st (alter_entry c g es)) (c' :: q)
  = lookup_opt (if str_eqb c c' then g (assoc c es) else assoc c' es) q.
Proof.
  intros Hnd. cbn [lookup]. rewrite (assoc_alter_entry _ _ _ _ Hnd).
  destruct (str_eqb c c').
  - destruct (g (assoc c es)); reflexivity.
  - destruct (assoc c' es); reflexivity.
Qed.



(** ** Normalised paths and positions *)







Lemma posix_normcomps_cons (b : bool) (acc : list str) (c : str) (cs : list str) :
  posixpath.normcomps b acc (c :: cs)
  = posixpath.normcomps b (posix_step b acc c) cs.
Proof.
  unfold posix_step. cbn [posixpath.normcomps].
  repeat match goal with |- context [if ?x then _ else _] => destruct x end;
    reflexivity.
Qed.

Lemma posix_normcomps_snoc (b : bool) (acc xs : list str) (x : str) :
  posixpath.normcomps b acc (xs ++ [x])
  = posix_step b (posixpath.normcomps b acc xs) x.
Proof.
  rewrite posix_normcomps_app, posix_normcomps_cons. reflexivity.
Qed.

Lemma plain_spec (x : str) :
  plain x <->
  str_eqb x [] = false /\ str_eqb x curdir = false /\ str_eqb x pardir = false.
Proof. unfold plain. rewrite !str_eqb_neq. tauto. Qed.

Lemma posix_step_plain (b : bool) (acc : list str) (x : str) :
  plain x -> posix_step b acc x = acc ++ [x].
Proof.
  intros H. apply plain_spec in H. destruct H as [H1 [H2 H3]].
  unfold posix_step. rewrite H1, H2, H3. reflexivity.
Qed.

Lemma posix_step_skip (b : bool) (acc : list str) (x : str) :
  str_eqb x [] || str_eqb x curdir = true -> posix_step b acc x = acc.
Proof. intros H. unfold posix_step. rewrite H. reflexivity. Qed.

Lemma last_snoc (A : Type) (l : list A) (x d : A) : last (l ++ [x]) d = x.
Proof. apply last_last. Qed.

(** [..] after a plain component takes it away. *)
Lemma posix_step_pop (b : bool) (acc : list str) (x : str) :
  plain x -> posix_step b (acc ++ [x]) pardir = acc.
Proof.
  intros H. apply plain_spec in H. destruct H as [_ [_ H3]].
  unfold posix_step. change (str_eqb pardir [] || str_eqb pardir curdir) with false.
  cbv iota. rewrite str_eqb_refl. cbn [negb orb].
  rewrite last_snoc, H3.
  destruct (acc ++ [x]) as [|y l] eqn:E; [destruct acc; discriminate|].
  rewrite andb_false_r. cbn [orb]. rewrite <- E. apply removelast_last.
Qed.

Lemma posix_normcomps_plain (b : bool) (l acc : list str) :
  Forall plain l -> posixpath.normcomps b acc l = acc ++ l.
Proof.
  revert acc. induction l as [|x l IH]; intros acc H.
  - rewrite app_nil_r. reflexivity.
  - inversion H; subst.
    rewrite posix_normcomps_cons, posix_step_plain, IH, <- app_assoc by assumption.
    reflexivity.
Qed.

(** The normalised components are not empty and not [.]. *)
Lemma posix_step_kept (b : bool) (acc : list str) (x : str) :
  Forall (fun y => y <> [] /\ y <> curdir) acc ->
  Forall (fun y => y <> [] /\ y <> curdir) (posix_step b acc x).
Proof.
  intros H. unfold posix_step.
  destruct (str_eqb x [] || str_eqb x curdir) eqn:E; [exact H|].
  apply orb_false_iff in E. destruct E as [E1 E2].
  apply str_eqb_neq in E1, E2.
  match goal with |- context [if ?c then _ else _] => destruct c end.
  - apply Forall_app. split; [exact H | constructor; [tauto | constructor]].
  - apply Forall_removelast. exact H.
Qed.

Lemma posix_normcomps_kept (b : bool) (xs acc : list str) :
  Forall (fun y => y <> [] /\ y <> curdir) acc ->
  Forall (fun y => y <> [] /\ y <> curdir) (posixpath.normcomps b acc xs).
Proof.
  revert acc; induction xs as [|x xs IH]; intros acc H; [exact H|].
  rewrite posix_normcomps_cons. apply IH. apply posix_step_kept. exact H.
Qed.

(** On an absolute path no [..] is kept. *)
Lemma posix_step_abs_plain (acc : list str) (x : str) :
  Forall plain acc -> Forall plain (posix_step true acc x).
Proof.
  intros H. unfold posix_step.
  destruct (str_eqb x [] || str_eqb x curdir) eqn:E; [exact H|].
  apply orb_false_iff in E. destruct E as [E1 E2].
  cbn [negb andb orb].
  destruct (str_eqb x pardir) eqn:E3; cbn [negb orb].
  - assert (Hl : match acc with
                 | [] => false
                 | _ :: _ => str_eqb (last acc []) pardir
                 end = false).
    { destruct acc as [|a acc']; [reflexivity|].
      assert (Hin : In (last (a :: acc') []) (a :: acc')).
      { destruct (exists_last (l := a :: acc')) as [l' [z Hz]]; [discriminate|].
        rewrite Hz, last_snoc. apply in_or_app. right; left; reflexivity. }
      rewrite Forall_forall in H. apply H in Hin.
      apply plain_spec in Hin. tauto. }
    rewrite Hl. apply Forall_removelast. exact H.
  - apply Forall_app. split; [exact H|].
    constructor; [apply plain_spec; tauto | constructor].
Qed.

Lemma posix_normcomps_abs_plain (xs acc : list str) :
  Forall plain acc -> Forall plain (posixpath.normcomps true acc xs).
Proof.
  revert acc; induction xs as [|x xs IH]; intros acc H; [exact H|].
  rewrite posix_normcomps_cons. apply IH. apply posix_step_abs_plain. exact H.
Qed.


(** Normalising a relative path first changes nothing for what comes
    after. *)
Lemma posix_normcomps_idem (xs : list str) :
  forall b acc,
    posixpath.normcomps b acc (posixpath.normcomps false [] xs)
    = posixpath.normcomps b acc xs.
Proof.
  induction xs as [|x xs IH] using rev_ind; intros b acc; [reflexivity|].
  rewrite !posix_normcomps_snoc, <- (IH b acc).
  set (Y := posixpath.normcomps false [] xs).
  assert (HY : Forall (fun y => y <> [] /\ y <> curdir) Y).
  { apply posix_normcomps_kept. constructor. }
  clearbody Y. clear IH.
  destruct (str_eqb x [] || str_eqb x curdir) eqn:E.
  { rewrite !posix_step_skip by exact E. reflexivity. }
  apply orb_false_iff in E. destruct E as [E1 E2].
  destruct (str_eqb x pardir) eqn:E3.
  - apply str_eqb_eq in E3. subst x.
    destruct Y as [|y0 Y0] using rev_ind.
    + reflexivity.
    + clear IHY0. rewrite Forall_app in HY. destruct HY as [_ Hy].
      inversion Hy as [|? ? [Hy1 Hy2] _]; subst.
      destruct (str_eqb y0 pardir) eqn:Ey.
      * assert (Es : posix_step false (Y0 ++ [y0]) pardir = (Y0 ++ [y0]) ++ [pardir]).
        { unfold posix_step.
          change (str_eqb pardir [] || str_eqb pardir curdir) with false.
          cbv iota. rewrite last_snoc, Ey.
          destruct (Y0 ++ [y0]) eqn:EY; [destruct Y0; discriminate|].
          rewrite orb_true_r. reflexivity. }
        rewrite Es, posix_normcomps_snoc. reflexivity.
      * assert (Hp : plain y0) by (apply plain_spec; rewrite Ey;
          apply str_eqb_neq in Hy1, Hy2; tauto).
        rewrite (posix_step_pop false Y0 y0 Hp).
        rewrite posix_normcomps_snoc, (posix_step_plain b _ y0 Hp).
        rewrite (posix_step_pop b _ y0 Hp). reflexivity.
  - assert (Hp : plain x) by (apply plain_spec; tauto).
    rewrite (posix_step_plain false Y x Hp), posix_normcomps_snoc. reflexivity.
Qed.



Lemma join_clean_nonempty (Y : list str) :
  Forall clean Y -> Y <> [] ->
  join [slash] Y <> [] /\ startswith posixpath.sep (join [slash] Y) = false.
Proof.
  intros H Hne. destruct Y as [|y Y]; [congruence|].
  inversion H as [|? ? [Hy1 Hy2] _]; subst.
  destruct y as [|y0 y]; [congruence|].
  assert (Hy0 : Ascii.eqb slash y0 = false).
  { apply Ascii.eqb_neq. intros E. apply Hy2. left. symmetry. exact E. }
  destruct Y; cbn [join app]; (split; [discriminate|]);
    unfold posixpath.sep; cbn [startswith]; rewrite Hy0; reflexivity.
Qed.


(** ** The position a path resolves to is its lexical position *)




Lemma wf_cwd (fs : filesystem) : wf_fs fs = true -> forallb valid_name (cwd fs) = true.
Proof. unfold wf_fs. rewrite !andb_true_iff. tauto. Qed.



(** ** Extracting the entries of [create_zip_file] *)




Lemma wf_positions_valid (pos : position) (r x : node) :
  wf_node r = true -> lookup r pos = Some x -> forallb valid_name pos = true.
Proof.
  revert r; induction pos as [|c pos IH]; intros r Hwf Hl; [reflexivity|].
  destruct r as [st data|st es]; [discriminate|].
  simpl in Hl. destruct (assoc c es) as [m|] eqn:Ea; [|discriminate].
  destruct (wf_dir_inv _ _ Hwf) as [_ Hes].
  destruct (Hes c m (assoc_in _ _ _ Ea)) as [Hc Hm].
  simpl. rewrite Hc. apply (IH m Hm Hl).
Qed.




(** ** C3: packaging and extracting *)




(** [extract_zipfile] does not give the extracted files the modes of the
    originals: they get the mode of a new file, 0o666 less the mask. The
    mode of the original is what the entry's external attributes hold. *)
Example extracted_mode_not_restored :
  exists z fs',
    create_zip_file fs0 (lit "src") = Ok z
    /\ extract_zipfile 18 0 fs0 z (lit "/tmp") = Ok fs'
    /\ os_stat fs0 (lit "src/a/c/d.txt") = Ok (mk_stat 33261 3 1541289601)
    /\ os_stat fs' (lit "/tmp/a/c/d.txt") = Ok (mk_stat 33188 3 0)
    /\ read_binary fs' (lit "/tmp/a/c/d.txt")
       = read_binary fs0 (lit "src/a/c/d.txt").
Proof. eexists _, _. repeat split; reflexivity. Qed.

(* ================================================================== *)
(** * Further properties of the code *)

(** ** [to_cfn_resource_name] *)

Example to_cfn_ex :
  to_cfn_resource_name (lit "my-app_name") = Ok (lit "MyAppName")
  /\ to_cfn_resource_name (lit "handler.v2--x") = Ok (lit "Handlerv2X")
  /\ to_cfn_resource_name (lit ".a") = Ok (lit "a")
  /\ to_cfn_resource_name (lit "-_-") = Ok []
  /\ to_cfn_resource_name [] = Raise ValueError.
Proof. repeat split; reflexivity. Qed.

Lemma alnum_not_sep (c : ascii) :
  is_alnum c = true -> c <> dash /\ c <> underscore.
Proof.
  destruct c as [[] [] [] [] [] [] [] []]; intros H;
    try discriminate H; split; discriminate.
Qed.

Lemma upper_char_alnum (c : ascii) : is_alnum (upper_char c) = is_alnum c.
Proof. destruct c as [[] [] [] [] [] [] [] []]; reflexivity. Qed.

Lemma upper_char_idem (c : ascii) : upper_char (upper_char c) = upper_char c.
Proof. destruct c as [[] [] [] [] [] [] [] []]; reflexivity. Qed.

Lemma capitalize_idem (w : str) : capitalize (capitalize w) = capitalize w.
Proof. destruct w; simpl; [reflexivity|]. rewrite upper_char_idem. reflexivity. Qed.

Lemma capitalize_alnum (w : str) :
  forallb is_alnum (capitalize w) = forallb is_alnum w.
Proof. destruct w; simpl; [reflexivity|]. rewrite upper_char_alnum. reflexivity. Qed.

Lemma capitalize_nonempty (w : str) : w <> [] -> capitalize w <> [].
Proof. destruct w; [congruence | discriminate]. Qed.

Lemma capitalize_app (w v : str) :
  w <> [] -> capitalize (w ++ v) = capitalize w ++ v.
Proof. destruct w; [congruence | reflexivity]. Qed.

Lemma alnum_word_no_sep (w : str) (sep : ascii) :
  sep = dash \/ sep = underscore ->
  forallb is_alnum w = true -> ~ In sep w.
Proof.
  intros Hsep Hw Hin. rewrite forallb_forall in Hw. apply Hw in Hin.
  apply alnum_not_sep in Hin. destruct Hsep; tauto.
Qed.

(** A pass over a name without the separator capitalises the name. *)
Lemma camel_words_one (sep : ascii) (s : str) :
  s <> [] -> ~ In sep s -> camel_words sep s = capitalize s.
Proof.
  intros Hne Hs. unfold camel_words. rewrite (split_no_sep _ _ Hs).
  cbn [filter]. apply str_eqb_neq in Hne. rewrite Hne. cbn [negb map concat].
  apply app_nil_r.
Qed.

(** A pass over words joined by the separator capitalises each word. *)
Lemma camel_words_join (sep : ascii) (ws : list str) :
  ws <> [] -> Forall (fun w => w <> [] /\ ~ In sep w) ws ->
  camel_words sep (join [sep] ws) = concat (map capitalize ws).
Proof.
  intros Hne Hws. unfold camel_words.
  rewrite split_join; [|exact Hne|].
  - f_equal. f_equal. induction Hws as [|w ws [Hw _] _ IH]; [reflexivity|].
    cbn [filter]. apply str_eqb_neq in Hw. rewrite Hw. cbn [negb].
    destruct ws as [|w' ws']; [reflexivity|]. rewrite IH; [reflexivity|discriminate].
  - revert Hws. apply Forall_impl. intros w [_ Hw]. exact Hw.
Qed.

Lemma concat_alnum (ws : list str) :
  Forall (fun w => forallb is_alnum w = true) ws ->
  forallb is_alnum (concat ws) = true.
Proof.
  induction 1 as [|w ws Hw _ IH]; [reflexivity|].
  simpl. rewrite forallb_app, Hw, IH. reflexivity.
Qed.

Lemma filter_all (A : Type) (f : A -> bool) (l : list A) :
  forallb f l = true -> filter f l = l.
Proof.
  induction l as [|x l IH]; simpl; [reflexivity|].
  rewrite andb_true_iff. intros [Hx Hl]. rewrite Hx, (IH Hl). reflexivity.
Qed.

Lemma join_sep_nonempty (sep : ascii) (ws : list str) :
  ws <> [] -> Forall (fun w => w <> []) ws -> join [sep] ws <> [].
Proof.
  intros Hne H. destruct ws as [|w ws]; [congruence|].
  inversion H as [|? ? Hw _]; subst.
  destruct w; [congruence|]. destruct ws; discriminate.
Qed.

(** The words of a name in CamelCase. *)
Lemma camel_result (ws : list str) :
  ws <> [] -> Forall (fun w => w <> [] /\ forallb is_alnum w = true) ws ->
  let s := concat (map capitalize ws) in
  s <> [] /\ forallb is_alnum s = true /\ capitalize s = s.
Proof.
  intros Hne Hws. cbv zeta. destruct ws as [|w ws]; [congruence|].
  inversion Hws as [|? ? [Hw Hwa] Hrest]; subst.
  cbn [map concat]. split; [|split].
  - destruct w; [congruence | discriminate].
  - rewrite forallb_app, capitalize_alnum, Hwa. cbn [andb].
    apply concat_alnum. apply Forall_forall. intros v Hv.
    apply in_map_iff in Hv. destruct Hv as [v0 [<- Hv0]].
    rewrite capitalize_alnum. rewrite Forall_forall in Hrest.
    apply (Hrest v0 Hv0).
  - rewrite capitalize_app by (apply capitalize_nonempty; exact Hw).
    rewrite capitalize_idem. reflexivity.
Qed.

Lemma to_cfn_words :
  forall sep ws,
    sep = dash \/ sep = underscore ->
    ws <> [] ->
    Forall (fun w => w <> [] /\ forallb is_alnum w = true) ws ->
    to_cfn_resource_name (join [sep] ws) = Ok (concat (map capitalize ws)).
Proof.
  intros sep ws Hsep Hne Hws.
  destruct (camel_result ws Hne Hws) as [Hs [Hsa Hcap]].
  assert (Hnosep : forall c, c = dash \/ c = underscore ->
                             Forall (fun w => w <> [] /\ ~ In c w) ws).
  { intros c Hc. revert Hws. apply Forall_impl. intros w [Hw Hwa].
    split; [exact Hw | apply alnum_word_no_sep; assumption]. }
  assert (Hjne : join [sep] ws <> []).
  { apply join_sep_nonempty; [exact Hne|]. revert Hws.
    apply Forall_impl. intros w [Hw _]. exact Hw. }
  assert (Hfinal : fold_left (fun n s => camel_words s n) [dash; underscore]
                             (join [sep] ws)
                   = concat (map capitalize ws)).
  { cbn [fold_left]. destruct Hsep as [-> | ->].
    - rewrite (camel_words_join dash ws Hne (Hnosep dash (or_introl eq_refl))).
      rewrite camel_words_one; [exact Hcap | exact Hs|].
      apply alnum_word_no_sep; [right; reflexivity | exact Hsa].
    - destruct ws as [|w ws']; [congruence|].
      inversion Hws as [|? ? [Hw Hwa] Hrest]; subst.
      assert (Hnodash : ~ In dash (join [underscore] (w :: ws'))).
      { intros Hin. apply join_in in Hin.
        destruct Hin as [[Hin|[]]|[v [Hv Hc]]]; [discriminate|].
        rewrite Forall_forall in Hws. destruct (Hws v Hv) as [_ Hva].
        revert Hc. apply alnum_word_no_sep; [left; reflexivity | exact Hva]. }
      rewrite (camel_words_one dash _ Hjne Hnodash).
      assert (Ecap : capitalize (join [underscore] (w :: ws'))
                     = join [underscore] (capitalize w :: ws')).
      { destruct ws'; cbn [join]; [reflexivity|].
        apply capitalize_app. exact Hw. }
      rewrite Ecap, camel_words_join; [|discriminate|].
      + cbn [map concat]. rewrite capitalize_idem. reflexivity.
      + constructor.
        * split; [apply capitalize_nonempty; exact Hw|].
          apply alnum_word_no_sep; [right; reflexivity|].
          rewrite capitalize_alnum. exact Hwa.
        * revert Hrest. apply Forall_impl. intros v [Hv Hva].
          split; [exact Hv | apply alnum_word_no_sep; [right; reflexivity | exact Hva]]. }
  unfold to_cfn_resource_name.
  destruct (join [sep] ws) as [|j0 j] eqn:Ej; [congruence|].
  rewrite Hfinal. f_equal. apply filter_all. exact Hsa.
Qed.

(** X1. A name made of alphanumeric words joined by [-], or joined by
    [_], becomes these words in CamelCase: each word with its first
    character in upper case, with nothing between them. *)
Theorem to_cfn_resource_name_camel_case :
  forall sep ws,
    sep = dash \/ sep = underscore ->
    ws <> [] ->
    Forall (fun w => w <> [] /\ forallb is_alnum w = true) ws ->
    to_cfn_resource_name (join [sep] ws) = Ok (concat (map capitalize ws)).
Proof. exact to_cfn_words. Qed.

Lemma to_cfn_resource_name_camel_case_witness :
  to_cfn_resource_name (join [underscore] [lit "rest"; lit "api"; lit "v2"])
  = Ok (concat (map capitalize [lit "rest"; lit "api"; lit "v2"])).
Proof.
  apply to_cfn_resource_name_camel_case.
  - right; reflexivity.
  - discriminate.
  - repeat constructor; discriminate.
Defined.

(** X2. Names can collide, as the source warns: two or more alphanumeric
    words joined by [-] and the same words joined by [_] are different
    names with the same resource name. *)
Theorem to_cfn_resource_name_collision :
  forall w1 w2 ws,
    Forall (fun w => w <> [] /\ forallb is_alnum w = true) (w1 :: w2 :: ws) ->
    join [dash] (w1 :: w2 :: ws) <> join [underscore] (w1 :: w2 :: ws)
    /\ to_cfn_resource_name (join [dash] (w1 :: w2 :: ws))
       = to_cfn_resource_name (join [underscore] (w1 :: w2 :: ws)).
Proof.
  intros w1 w2 ws Hws. split.
  - cbn [join]. intros E. apply app_inv_head in E. discriminate E.
  - rewrite (to_cfn_words dash), (to_cfn_words underscore);
      auto; discriminate.
Qed.

Lemma to_cfn_resource_name_collision_witness :
  join [dash] [lit "my"; lit "app"] <> join [underscore] [lit "my"; lit "app"]
  /\ to_cfn_resource_name (join [dash] [lit "my"; lit "app"])
     = to_cfn_resource_name (join [underscore] [lit "my"; lit "app"]).
Proof.
  apply to_cfn_resource_name_collision.
  repeat constructor; discriminate.
Defined.

Lemma in_concat_capitalize (c : ascii) (ws : list str) :
  In c (concat (map capitalize ws)) ->
  exists w c0, In w ws /\ In c0 w /\ (c = c0 \/ c = upper_char c0).
Proof.
  induction ws as [|w ws IH]; cbn [map concat]; [intros []|].
  intros H. apply in_app_or in H. destruct H as [H|H].
  - destruct w as [|c0 w']; [destruct H|]. destruct H as [<- | H].
    + exists (c0 :: w'), c0. split; [left; reflexivity|].
      split; [left; reflexivity | right; reflexivity].
    + exists (c0 :: w'), c. split; [left; reflexivity|].
      split; [right; exact H | left; reflexivity].
  - destruct (IH H) as [w0 [c0 [Hw0 Hc0]]]. exists w0, c0.
    split; [right; exact Hw0 | exact Hc0].
Qed.

(** A pass produces no alphanumeric character out of none. *)
Lemma camel_words_no_alnum (sep : ascii) (name : str) :
  (forall c, In c name -> is_alnum c = false) ->
  forall c, In c (camel_words sep name) -> is_alnum c = false.
Proof.
  intros Hname c Hc. unfold camel_words in Hc.
  apply in_concat_capitalize in Hc.
  destruct Hc as [w [c0 [Hw [Hc0 Hc]]]].
  apply filter_In in Hw. destruct Hw as [Hw _].
  pose proof (split_incl _ _ _ Hw _ Hc0) as Hin.
  destruct Hc as [-> | ->]; [|rewrite upper_char_alnum]; apply Hname; exact Hin.
Qed.

Lemma filter_none (A : Type) (f : A -> bool) (l : list A) :
  (forall x, In x l -> f x = false) -> filter f l = [].
Proof.
  induction l as [|x l IH]; intros H; [reflexivity|]. simpl.
  rewrite (H x (or_introl eq_refl)). apply IH. intros y Hy. apply H. right. exact Hy.
Qed.

(** X3. A non-empty ASCII name without any letter or digit is accepted:
    the function does not raise, and returns the empty string. *)
Theorem to_cfn_resource_name_no_alnum :
  forall name,
    name <> [] ->
    forallb is_ascii name = true ->
    forallb (fun c => negb (is_alnum c)) name = true ->
    to_cfn_resource_name name = Ok [].
Proof.
  intros name Hne _ Hna. unfold to_cfn_resource_name.
  destruct name as [|c0 name']; [congruence|]. f_equal.
  apply filter_none. cbn [fold_left].
  apply camel_words_no_alnum. apply camel_words_no_alnum.
  intros c Hc. rewrite forallb_forall in Hna. apply Hna in Hc.
  apply negb_true_iff in Hc. exact Hc.
Qed.

Lemma to_cfn_resource_name_no_alnum_witness :
  to_cfn_resource_name (lit "--_.") = Ok [].
Proof.
  apply to_cfn_resource_name_no_alnum; [discriminate | reflexivity | reflexivity].
Defined.

(** ** [create_zip_file]: edge cases and what every entry has *)



(** A property of the state that each turn of a loop keeps holds at its
    end. *)
Lemma foreach_invariant (A S : Type) (P : S -> Prop) (body : S -> A -> result S) :
  (forall s x s', P s -> body s x = Ok s' -> P s') ->
  forall l s s', P s -> foreach l body s = Ok s' -> P s'.
Proof.
  intros Hbody l. induction l as [|x l IH]; intros s s' Hs H; simpl in H.
  - inversion H; subst; exact Hs.
  - destruct (body s x) as [s1|e] eqn:E; simpl in H; [|discriminate].
    apply (IH s1 s' (Hbody s x s1 Hs E) H).
Qed.

(** X5. In every archive that [create_zip_file] produces, each entry is
    deflated, carries the fixed timestamp and the mark of a POSIX host,
    and records as its size the length of the data stored with it. *)
Theorem create_zip_file_entries_as_written :
  forall fs source_dir z,
    create_zip_file fs source_dir = Ok z ->
    Forall entry_as_written (filelist z).
Proof.
  intros fs source_dir z H.
  pose (P := fun z : ChaliceZipFile =>
               compression z = ZIP_DEFLATED
               /\ Forall entry_as_written (filelist z)).
  assert (HP : P z).
  { unfold create_zip_file in H. revert H.
    apply (foreach_invariant _ _ P); [|split; [reflexivity | constructor]].
    intros s [[top ds] fnames] s' Hs Hbody. unfold zip_add_dir in Hbody.
    revert Hs Hbody. apply (foreach_invariant _ _ P).
    clear. intros s fname s' [Hc Hall] Hbody. unfold zip_add_file in Hbody.
    destruct (posixpath.relpath _ _ _) as [arc|e]; simpl in Hbody; [|discriminate].
    apply write_inv in Hbody.
    destruct Hbody as [st [data [_ [_ [_ [Hc' Hfl]]]]]].
    split; [congruence|]. rewrite Hfl. apply Forall_app. split; [exact Hall|].
    constructor; [|constructor].
    unfold entry_as_written. cbn [fst snd compress_type date_time create_system file_size].
    rewrite Hc. repeat split; reflexivity. }
  exact (proj2 HP).
Qed.

Lemma create_zip_file_entries_as_written_witness :
  exists z, create_zip_file fs0 (lit "src") = Ok z
            /\ Forall entry_as_written (filelist z).
Proof.
  assert (E : exists z, create_zip_file fs0 (lit "src") = Ok z)
    by (eexists; vm_compute; reflexivity).
  destruct E as [z E]. exists z. split; [exact E|].
  exact (create_zip_file_entries_as_written fs0 (lit "src") z E).
Defined.

(** ** Files through [OSUtils] *)

Lemma drop_trailing_empty_length (l : list str) :
  length (drop_trailing_empty l) <= length l.
Proof.
  induction l as [|c cs IH]; simpl; [lia|].
  destruct (drop_trailing_empty cs) as [|x xs].
  - destruct (str_eqb c []); simpl; lia.
  - simpl in *. lia.
Qed.

Lemma drop_trailing_empty_all (l : list str) :
  Nat.ltb (length (drop_trailing_empty l)) (length l) = false ->
  drop_trailing_empty l = l.
Proof.
  rewrite Nat.ltb_ge.
  induction l as [|c cs IH]; simpl; [reflexivity|].
  pose proof (drop_trailing_empty_length cs) as Hle.
  destruct (drop_trailing_empty cs) as [|x xs].
  - destruct (str_eqb c []); simpl; intros H; [lia|].
    destruct cs; [reflexivity | simpl in H; lia].
  - intros H. simpl in H. f_equal. apply IH. simpl. lia.
Qed.

Lemma alter_entry_result (c : str) (g : option node -> option node)
      (es : list (str * node)) (name : str) (m : node) :
  In (name, m) (alter_entry c g es) ->
  In (name, m) es \/ (name = c /\ g (assoc c es) = Some m).
Proof.
  induction es as [|[n x] es IH]; simpl.
  - destruct (g None) as [y|] eqn:E; [|intros []].
    intros [H|[]]. inversion H; subst. right. split; reflexivity.
  - destruct (str_eqb n c) eqn:Ecn.
    + apply str_eqb_eq in Ecn. subst n.
      destruct (g (Some x)) as [y|] eqn:E.
      * intros [H|H]; [|left; right; exact H].
        inversion H; subst. right. split; reflexivity.
      * intros H. left; right; exact H.
    + intros [H|H]; [left; left; exact H|].
      destruct (IH H) as [H'|H']; [left; right; exact H' | right; exact H'].
Qed.

Lemma alter_entry_nodup_any (c : str) (g : option node -> option node)
      (es : list (str * node)) :
  NoDup (map fst es) -> NoDup (map fst (alter_entry c g es)).
Proof.
  induction es as [|[n y] es IH]; simpl; intros Hnd.
  - destruct (g None); simpl; [|constructor].
    constructor; [intros [] | constructor].
  - inversion Hnd as [|? ? Hn Hes]; subst.
    destruct (str_eqb n c) eqn:Enc; simpl.
    + destruct (g (Some y)); simpl; [constructor; assumption | exact Hes].
    + constructor; [|apply IH; exact Hes].
      intros Hin. apply in_map_iff in Hin. destruct Hin as [[n' m'] [E Hin]].
      simpl in E. subst n'. apply alter_entry_result in Hin.
      destruct Hin as [Hin|[E _]].
      * apply Hn. apply in_map_iff. exists (n, m'). split; [reflexivity | exact Hin].
      * subst c. rewrite str_eqb_refl in Enc. discriminate.
Qed.

(** Changing an entry keeps a directory well formed when the new entry
    is, and the name is one a directory can list. *)
Lemma wf_alter_entry_any (st : stat_result) (es : list (str * node)) (c : str)
      (g : option node -> option node) :
  wf_node (Dir st es) = true -> valid_name c = true ->
  (forall m, g (assoc c es) = Some m -> wf_node m = true) ->
  wf_node (Dir st (alter_entry c g es)) = true.
Proof.
  intros Hwf Hc Hg. destruct (wf_dir_inv _ _ Hwf) as [Hnd Hes].
  apply wf_dir_intro.
  - apply alter_entry_nodup_any. apply nodupb_NoDup. exact Hnd.
  - intros name m Hin. apply alter_entry_result in Hin.
    destruct Hin as [Hin|[-> Hm]]; [apply (Hes _ _ Hin)|].
    split; [exact Hc | apply Hg; exact Hm].
Qed.

Lemma wf_assoc (st : stat_result) (es : list (str * node)) (c : str) :
  wf_node (Dir st es) = true -> wf_opt (assoc c es).
Proof.
  intros Hwf. destruct (assoc c es) as [m|] eqn:E; simpl; [|exact I].
  apply (wf_child _ _ _ _ Hwf E).
Qed.

Lemma wf_alter_written (umask now : Z) (data : bytes) (pos : position) :
  forallb valid_name pos = true ->
  forall o, wf_opt o -> wf_opt (alter (written umask now data) pos o).
Proof.
  induction pos as [|c cs IH]; intros Hv o Ho.
  - destruct o as [[st d|st es]|]; simpl; auto.
  - simpl in Hv. apply andb_true_iff in Hv. destruct Hv as [Hc Hcs].
    destruct o as [[st d|st es]|]; cbn [alter wf_opt]; auto.
    change (wf_node (Dir st es) = true) in Ho.
    apply (wf_alter_entry_any st es c _ Ho Hc).
    intros m Hm. pose proof (IH Hcs _ (wf_assoc st es c Ho)) as H.
    rewrite Hm in H. exact H.
Qed.

(** After a write at [parent ++ [name]], the node there is what
    [written] makes of the one that was there. *)
Lemma lookup_alter_child (f : option node -> option node) (name : str)
      (parent : position) :
  forall r st es q,
    wf_node r = true -> lookup r parent = Some (Dir st es) ->
    lookup_opt (alter f (parent ++ [name]) (Some r)) (parent ++ name :: q)
    = lookup_opt (f (assoc name es)) q.
Proof.
  induction parent as [|c cs IH]; intros r st es q Hwf Hl.
  - simpl in Hl. inversion Hl; subst. cbn [app alter lookup_opt].
    destruct (wf_dir_inv _ _ Hwf) as [Hnd _].
    rewrite (lookup_alter_entry _ _ _ _ _ _ Hnd), str_eqb_refl. reflexivity.
  - destruct r as [st0 d0|st0 es0]; [discriminate|].
    simpl in Hl. destruct (assoc c es0) as [m|] eqn:Ea; [|discriminate].
    destruct (wf_dir_inv _ _ Hwf) as [Hnd _].
    cbn [app alter lookup_opt].
    rewrite (lookup_alter_entry _ _ _ _ _ _ Hnd), str_eqb_refl, Ea.
    apply (IH m st es q (wf_child _ _ _ _ Hwf Ea) Hl).
Qed.

(** A write changes nothing but the file written: every node stays, of
    its kind, and every other file as it was. *)
Lemma written_grows (umask now : Z) (data : bytes) (pos : position) :
  forall r q x,
    wf_node r = true -> lookup r q = Some x ->
    exists y,
      lookup_opt (alter (written umask now data) pos (Some r)) q = Some y
      /\ is_dir y = is_dir x
      /\ (q <> pos -> is_dir x = false -> y = x).
Proof.
  induction pos as [|c cs IH]; intros r q x Hwf Hl.
  - cbn [alter]. destruct r as [st d|st es].
    + destruct q; [|discriminate]. simpl in Hl. inversion Hl; subst.
      eexists. split; [reflexivity|]. split; [reflexivity|]. congruence.
    + exists x. split; [exact Hl|]. split; reflexivity.
  - destruct r as [st d|st es].
    + exists x. split; [exact Hl|]. split; reflexivity.
    + cbn [alter lookup_opt]. destruct q as [|c' q'].
      * simpl in Hl. inversion Hl; subst. eexists. split; [reflexivity|].
        split; [reflexivity|]. simpl. discriminate.
      * destruct (wf_dir_inv _ _ Hwf) as [Hnd _].
        rewrite (lookup_alter_entry _ _ _ _ _ _ Hnd).
        simpl in Hl. destruct (assoc c' es) as [m|] eqn:Ea; [|discriminate].
        destruct (str_eqb c c') eqn:Ecc.
        -- apply str_eqb_eq in Ecc. subst c'. rewrite Ea.
           destruct (IH m q' x (wf_child _ _ _ _ Hwf Ea) Hl) as [y [Hy [Hk Hsame]]].
           exists y. split; [exact Hy|]. split; [exact Hk|].
           intros Hne. apply Hsame. congruence.
        -- exists x. split; [exact Hl|]. split; reflexivity.
Qed.

Lemma lookup_opt_nil (o : option node) : lookup_opt o [] = o.
Proof. destruct o; reflexivity. Qed.

Lemma wf_fs_cwd_dir (fs : filesystem) :
  wf_fs fs = true -> exists st es, lookup (root fs) (cwd fs) = Some (Dir st es).
Proof.
  unfold wf_fs. rewrite !andb_true_iff. intros [_ H].
  destruct (lookup (root fs) (cwd fs)) as [[? ?|st es]|]; try discriminate.
  exists st, es. reflexivity.
Qed.

(** What a successful [open_wb] has done. *)
Lemma open_wb_spec (umask now : Z) (fs fs' : filesystem) (p : str)
      (data : bytes) :
  wf_fs fs = true ->
  open_wb umask now fs p data = Ok fs' ->
  exists pos st',
    wf_fs fs' = true
    /\ cwd fs' = cwd fs
    /\ resolve fs' p = Ok pos
    /\ lookup (root fs') pos = Some (File st' data)
    /\ (forall q x,
           lookup (root fs) q = Some x ->
           exists y, lookup (root fs') q = Some y
                     /\ is_dir y = is_dir x
                     /\ (q <> pos -> is_dir x = false -> y = x)).
Proof.
  intros Hwf H. destruct p as [|p0 p']; [discriminate H|].
  unfold open_wb in H.
  destruct (existsb (Ascii.eqb nul) (p0 :: p')) eqn:Hnul; [discriminate H|].
  set (p := p0 :: p') in *. cbv zeta in H.
  match type of H with
  | bind (resolve_comps _ ?s _) _ = _ => set (start := s) in *
  end.
  destruct (resolve_comps (root fs) start
                          (removelast (drop_trailing_empty (split slash p))))
    as [parent|e] eqn:Hpar; cbn [bind] in H; [|discriminate H].
  destruct (lookup (root fs) parent) as [[st d|st es]|] eqn:Hlp; try discriminate H.
  destruct (Nat.ltb _ _) eqn:Htr; [discriminate H|]. cbn [orb] in H.
  apply drop_trailing_empty_all in Htr. rewrite Htr in *.
  set (name := last (split slash p) []) in *.
  destruct (str_eqb name []) eqn:Hn1; [discriminate H|].
  destruct (str_eqb name curdir) eqn:Hn2; [discriminate H|].
  destruct (str_eqb name pardir) eqn:Hn3; [discriminate H|]. cbn [orb] in H.
  pose proof (wf_root _ Hwf) as Hwr.
  assert (Hcomps : split slash p = removelast (split slash p) ++ [name]).
  { apply app_removelast_last. apply split_nonnil. }
  assert (Hin : In name (split slash p)).
  { rewrite Hcomps. apply in_or_app. right. left. reflexivity. }
  assert (Hname : valid_name name = true).
  { apply valid_name_spec. apply str_eqb_neq in Hn1, Hn2, Hn3.
    repeat split; try assumption.
    - apply (split_no_sep_in _ _ _ Hin).
    - intros Hc. apply (split_incl _ _ _ Hin) in Hc.
      apply existsb_eqb_false in Hnul. contradiction. }
  assert (Hpos : forallb valid_name (parent ++ [name]) = true).
  { rewrite forallb_app, (wf_positions_valid _ _ _ Hwr Hlp). simpl.
    rewrite Hname. reflexivity. }
  destruct (alter_fs_root (written umask now data) (parent ++ [name]) fs)
    as [r' [Hr' Hfs']]; [destruct parent; discriminate|].
  assert (Hnew : fs' = mk_fs r' (cwd fs)).
  { destruct (lookup (root fs) (parent ++ [name])) as [[? ?|? ?]|];
      try discriminate H; inversion H; subst; exact Hfs'. }
  assert (Hwr' : wf_node r' = true).
  { pose proof (wf_alter_written umask now data _ Hpos (Some (root fs)) Hwr) as Hw.
    rewrite Hr' in Hw. exact Hw. }
  assert (Hgrow : forall q x,
             lookup (root fs) q = Some x ->
             exists y, lookup r' q = Some y
                       /\ is_dir y = is_dir x
                       /\ (q <> parent ++ [name] -> is_dir x = false -> y = x)).
  { intros q x Hq.
    destruct (written_grows umask now data (parent ++ [name]) _ q x Hwr Hq)
      as [y Hy]. rewrite Hr' in Hy. exists y. exact Hy. }
  assert (Hat : exists st', lookup r' (parent ++ [name]) = Some (File st' data)).
  { pose proof (lookup_alter_child (written umask now data) name parent
                                   _ st es [] Hwr Hlp) as Hl.
    rewrite Hr', lookup_opt_nil in Hl. cbn [lookup_opt] in Hl.
    rewrite Hl. rewrite (lookup_snoc _ _ _ _ name Hlp) in H.
    destruct (assoc name es) as [[st0 d0|st0 es0]|]; [| discriminate H |];
      eexists; reflexivity. }
  destruct Hat as [st' Hat].
  exists (parent ++ [name]), st'. subst fs'. cbn [root cwd].
  split; [|split; [reflexivity|split; [|split; [exact Hat | exact Hgrow]]]].
  - unfold wf_fs. cbn [root cwd]. rewrite Hwr', (wf_cwd _ Hwf). cbn [andb].
    pose proof (wf_fs_cwd_dir _ Hwf) as [stc [esc Hc]].
    destruct (Hgrow _ _ Hc) as [y [Hy [Hk _]]]. rewrite Hy.
    destruct y; [discriminate Hk | reflexivity].
  - unfold resolve. fold p. cbn [root cwd]. fold start.
    rewrite Hcomps, resolve_comps_app.
    assert (Hsh : shrinks (root fs) r').
    { intros q x Hq. destruct (Hgrow q x Hq) as [y [Hy [Hk _]]].
      exists y. split; assumption. }
    rewrite (resolve_comps_shrinks _ _ Hsh _ _ _ Hpar). cbn [bind resolve_comps].
    destruct (Hgrow _ _ Hlp) as [y [Hy [Hk _]]]. rewrite Hy.
    destruct y as [? ?|? ?]; [discriminate Hk|].
    rewrite Hn1, Hn2, Hn3, Hat. reflexivity.
Qed.

Example set_file_contents_ex :
  (exists fs', set_file_contents 18 7 fs0 (lit "src/a/new.bin") [] = Ok fs')
  /\ set_file_contents 18 7 fs0 (lit "src/a") [] = Raise (OSError EISDIR)
  /\ set_file_contents 18 7 fs0 (lit "src/a/new.bin/") [] = Raise (OSError EISDIR)
  /\ set_file_contents 18 7 fs0 (lit "src/zzz/new.bin") [] = Raise (OSError ENOENT)
  /\ set_file_contents 18 7 fs0 (lit "src/a/b.txt/x") [] = Raise (OSError ENOTDIR).
Proof. repeat split; try reflexivity. eexists. reflexivity. Qed.

(** X6. What [set_file_contents] has written, [get_file_contents] reads
    back: after a successful write of [contents] to [filename], reading
    [filename] gives [contents]. *)
Theorem set_get_file_contents :
  forall umask now fs filename contents fs',
    wf_fs fs = true ->
    set_file_contents umask now fs filename contents = Ok fs' ->
    get_file_contents fs' filename = Ok contents.
Proof.
  intros umask now fs filename contents fs' Hwf H.
  destruct (open_wb_spec _ _ _ _ _ _ Hwf H) as [pos [st' [_ [_ [Hr [Hl _]]]]]].
  unfold get_file_contents, read_binary, node_at.
  rewrite Hr. cbn [bind]. rewrite Hl. reflexivity.
Qed.

Lemma set_get_file_contents_witness :
  exists fs',
    set_file_contents 18 7 fs0 (lit "src/a/b.txt") app_py_data = Ok fs'
    /\ get_file_contents fs' (lit "src/a/b.txt") = Ok app_py_data.
Proof.
  assert (E : exists fs', set_file_contents 18 7 fs0 (lit "src/a/b.txt")
                                            app_py_data = Ok fs')
    by (eexists; vm_compute; reflexivity).
  destruct E as [fs' E]. exists fs'. split; [exact E|].
  exact (set_get_file_contents 18 7 fs0 (lit "src/a/b.txt") app_py_data fs'
                               fs0_wf E).
Defined.

(** X7. [set_file_contents] changes one file only: every path that named
    another file before names it after, with the content it had. *)
Theorem set_file_contents_other_files :
  forall umask now fs filename contents fs',
    wf_fs fs = true ->
    set_file_contents umask now fs filename contents = Ok fs' ->
    exists pos,
      resolve fs' filename = Ok pos
      /\ forall other q data,
           resolve fs other = Ok q -> q <> pos ->
           get_file_contents fs other = Ok data ->
           get_file_contents fs' other = Ok data.
Proof.
  intros umask now fs filename contents fs' Hwf H.
  destruct (open_wb_spec _ _ _ _ _ _ Hwf H)
    as [pos [st' [_ [Hcwd [Hr [_ Hgrow]]]]]].
  exists pos. split; [exact Hr|].
  intros other q data Hq Hne Hget.
  assert (Hsh : shrinks (root fs) (root fs')).
  { intros x n Hx. destruct (Hgrow x n Hx) as [y [Hy [Hk _]]].
    exists y. split; assumption. }
  assert (Hq' : resolve fs' other = Ok q).
  { unfold resolve in *. destruct other as [|o0 o']; [discriminate Hq|].
    rewrite Hcwd. apply (resolve_comps_shrinks _ _ Hsh _ _ _ Hq). }
  unfold get_file_contents, read_binary, node_at in *.
  rewrite Hq in Hget. rewrite Hq'. cbn [bind] in *.
  destruct (lookup (root fs) q) as [[s d|s es]|] eqn:Hl; try discriminate Hget.
  inversion Hget; subst d.
  destruct (Hgrow _ _ Hl) as [y [Hy [_ Hsame]]].
  rewrite Hy, (Hsame Hne eq_refl). reflexivity.
Qed.

Lemma set_file_contents_other_files_witness :
  exists fs' pos,
    set_file_contents 18 7 fs0 (lit "src/a/new.bin") app_py_data = Ok fs'
    /\ resolve fs' (lit "src/a/new.bin") = Ok pos
    /\ forall other q data,
         resolve fs0 other = Ok q -> q <> pos ->
         get_file_contents fs0 other = Ok data ->
         get_file_contents fs' other = Ok data.
Proof.
  assert (E : exists fs', set_file_contents 18 7 fs0 (lit "src/a/new.bin")
                                            app_py_data = Ok fs')
    by (eexists; vm_compute; reflexivity).
  destruct E as [fs' E].
  destruct (set_file_contents_other_files
              18 7 fs0 (lit "src/a/new.bin") app_py_data fs' fs0_wf E)
    as [pos [Hr Hother]].
  exists fs', pos. split; [exact E|]. split; [exact Hr | exact Hother].
Defined.

(** ** The file of deployed values *)

Example fs_deployed_ex :
  load_json_file unit keys_load fs_deployed (lit "deployed.json") = Ok two_stages
  /\ get_file_contents fs_deployed (lit "/home/u/deployed.json")
     = Ok (map byte_of_ascii (lit "dev" ++ [newline] ++ lit "prod" ++ [newline]))
  /\ wf_fs fs_deployed = true.
Proof. repeat split; reflexivity. Qed.

Lemma dict_get_has (V : Type) (key : str) (d : dict V) :
  dict_has key d = false <-> dict_get key d = None.
Proof.
  induction d as [|[k v] d IH]; simpl; [tauto|].
  destruct (str_eqb k key); simpl; [split; discriminate | exact IH].
Qed.

Lemma dict_del_get (V : Type) (key : str) (d rest : dict V) :
  dict_del key d = Some rest ->
  dict_get key d <> None
  /\ dict_get key rest = None
  /\ forall k, k <> key -> dict_get k rest = dict_get k d.
Proof.
  unfold dict_del. destruct (dict_has key d) eqn:Hh; [|discriminate].
  intros H. inversion H; subst rest. clear H. split; [|split].
  - intros Hn. apply dict_get_has in Hn. congruence.
  - clear Hh. induction d as [|[k v] d IH]; simpl; [reflexivity|].
    destruct (str_eqb k key) eqn:E; simpl; [exact IH|]. rewrite E. exact IH.
  - intros k0 Hk. clear Hh. induction d as [|[k v] d IH]; simpl; [reflexivity|].
    destruct (str_eqb k key) eqn:E; simpl.
    + apply str_eqb_eq in E. subst k.
      destruct (str_eqb key k0) eqn:E2; [|exact IH].
      apply str_eqb_eq in E2. congruence.
    + rewrite IH. reflexivity.
Qed.

Lemma dict_get_set (V : Type) (key k : str) (v : V) (d : dict V) :
  dict_get k (dict_set key v d)
  = if str_eqb key k then Some v else dict_get k d.
Proof.
  induction d as [|[k0 x] d IH]; simpl.
  - reflexivity.
  - destruct (str_eqb k0 key) eqn:E; simpl.
    + apply str_eqb_eq in E. subst k0. destruct (str_eqb key k); reflexivity.
    + destruct (str_eqb k0 k) eqn:E2; [|exact IH].
      apply str_eqb_eq in E2. subst k0.
      destruct (str_eqb key k) eqn:E3; [|reflexivity].
      apply str_eqb_eq in E3. subst k. rewrite str_eqb_refl in E. discriminate E.
Qed.

(** What [update] leaves in the dictionary: the keys of the other one
    with its values, and the keys it does not have as they were. *)
Lemma dict_get_update (V : Type) (other d : dict V) (k : str) :
  (dict_has k other = false ->
   dict_get k (dict_update d other) = dict_get k d)
  /\ (forall v, NoDup (map fst other) -> In (k, v) other ->
                dict_get k (dict_update d other) = Some v).
Proof.
  unfold dict_update. revert d.
  induction other as [|[k0 v0] other IH]; intros d; simpl.
  - split; [reflexivity | intros v _ []].
  - destruct (IH (dict_set k0 v0 d)) as [IH1 IH2]. split.
    + intros H. apply orb_false_iff in H. destruct H as [Hk Hrest].
      rewrite (IH1 Hrest), dict_get_set, Hk. reflexivity.
    + intros v Hnd Hin. inversion Hnd as [|? ? Hk0 Hnd']; subst.
      destruct Hin as [Hin|Hin].
      * inversion Hin; subst k0 v0.
        rewrite IH1, dict_get_set, str_eqb_refl; [reflexivity|].
        destruct (dict_has k other) eqn:Hh; [|reflexivity].
        exfalso. apply Hk0. unfold dict_has in Hh.
        apply existsb_exists in Hh. destruct Hh as [[k1 v1] [Hin1 E]].
        simpl in E. apply str_eqb_eq in E. subst k1.
        apply in_map_iff. exists (k, v1). split; [reflexivity | exact Hin1].
      * apply (IH2 v Hnd' Hin).
Qed.

Lemma read_binary_oserror (fs : filesystem) (p : str) (e : exn) :
  read_binary fs p = Raise e -> exists n, e = OSError n.
Proof.
  unfold read_binary, node_at.
  destruct (resolve fs p) as [pos|e0] eqn:Hr; cbn [bind].
  - destruct (lookup (root fs) pos) as [[st d|st es]|]; cbn [bind];
      intros H; inversion H; eexists; reflexivity.
  - intros H. inversion H; subst. apply (resolve_oserror _ _ _ Hr).
Qed.

Lemma remove_stage_skips :
  forall (V : Type) json_load json_dumps umask now key filename fs,
    path_isfile fs filename = false
    \/ (exists d, load_json_file V json_load fs filename = Ok d
                  /\ dict_get key d = None) ->
    remove_stage_from_deployed_values V json_load json_dumps umask now
                                      key filename fs
    = (fs, Ok tt).
Proof.
  intros V json_load json_dumps umask now key filename fs H.
  unfold remove_stage_from_deployed_values.
  destruct H as [H | [d [Hd Hk]]].
  - unfold load_json_file.
    destruct (read_binary fs filename) as [data|e] eqn:Hr; cbn [bind].
    + exfalso. unfold read_binary in Hr. unfold path_isfile in H.
      destruct (node_at fs filename) as [[st x|st es]|e]; cbn [bind] in Hr;
        discriminate.
    + destruct (read_binary_oserror _ _ _ Hr) as [n ->]. reflexivity.
  - rewrite Hd. unfold dict_del.
    apply dict_get_has in Hk. rewrite Hk. reflexivity.
Qed.



(** *** Writing to a file that is there *)

Lemma split_covers (c x : ascii) (s : str) :
  In x s -> x = c \/ exists w, In w (split c s) /\ In x w.
Proof.
  induction s as [|y s IH]; [intros []|].
  intros [<-|Hin]; simpl.
  - destruct (Ascii.eqb y c) eqn:E; [left; apply Ascii.eqb_eq; exact E|].
    right. destruct (split c s) as [|w ws].
    + exists [y]. split; left; reflexivity.
    + exists (y :: w). split; left; reflexivity.
  - destruct (IH Hin) as [->|[w [Hw Hx]]]; [left; reflexivity|]. right.
    destruct (Ascii.eqb y c).
    + exists w. split; [right; exact Hw | exact Hx].
    + destruct (split c s) as [|w0 ws]; [destruct Hw|].
      destruct Hw as [<-|Hw].
      * exists (y :: w0). split; [left; reflexivity | right; exact Hx].
      * exists w. split; [right; exact Hw | exact Hx].
Qed.

(** The components of a path that resolves have no NUL. *)
Lemma resolve_comps_no_nul (r : node) (comps : list str) :
  wf_node r = true ->
  forall cur q, resolve_comps r cur comps = Ok q ->
                Forall (fun w => ~ In nul w) comps.
Proof.
  intros Hwf. induction comps as [|c cs IH]; intros cur q H; [constructor|].
  cbn [resolve_comps] in H.
  destruct (lookup r cur) as [[st d|st es]|]; try discriminate H.
  destruct (str_eqb c [] || str_eqb c curdir) eqn:E1.
  - constructor; [|apply (IH _ _ H)].
    apply orb_true_iff in E1. destruct E1 as [E|E]; apply str_eqb_eq in E;
      subst c; [intros [] | intros [Hc|[]]; discriminate Hc].
  - destruct (str_eqb c pardir) eqn:E2.
    + constructor; [|apply (IH _ _ H)]. apply str_eqb_eq in E2. subst c.
      intros [Hc|[Hc|[]]]; discriminate Hc.
    + destruct (lookup r (cur ++ [c])) as [m|] eqn:Hl; [|discriminate H].
      constructor; [|apply (IH _ _ H)].
      pose proof (wf_positions_valid _ _ _ Hwf Hl) as Hv.
      rewrite forallb_app in Hv. apply andb_true_iff in Hv.
      destruct Hv as [_ Hv]. simpl in Hv. rewrite andb_true_r in Hv.
      apply valid_name_spec in Hv. tauto.
Qed.

Lemma drop_trailing_empty_last (l : list str) :
  last l [] <> [] -> drop_trailing_empty l = l.
Proof.
  induction l as [|c cs IH]; [reflexivity|].
  intros H. cbn [drop_trailing_empty]. destruct cs as [|c' cs'].
  - simpl in *. apply str_eqb_neq in H. rewrite H. reflexivity.
  - rewrite IH by exact H. reflexivity.
Qed.

(** Above a node of the tree are directories. *)
Lemma lookup_removelast (r : node) (pos : position) (x : node) :
  lookup r pos = Some x -> pos <> [] ->
  exists st es, lookup r (removelast pos) = Some (Dir st es).
Proof.
  intros Hl Hne. rewrite (app_removelast_last [] Hne), lookup_app in Hl.
  match type of Hl with
  | match ?t with _ => _ end = _ => destruct t as [[st d|st es]|] eqn:E
  end; [simpl in Hl; discriminate Hl | | discriminate Hl].
  exists st, es. exact E.
Qed.

(** In a file system without permissions, a file that can be read can be
    written. *)
Lemma open_wb_existing (umask now : Z) (fs : filesystem) (p : str)
      (data0 data : bytes) :
  wf_fs fs = true ->
  read_binary fs p = Ok data0 ->
  exists fs', open_wb umask now fs p data = Ok fs'.
Proof.
  intros Hwf Hread. pose proof (wf_root _ Hwf) as Hwr.
  unfold read_binary in Hread.
  destruct (node_at fs p) as [[st0 d0|st0 es0]|e] eqn:Hn;
    cbn [bind] in Hread; try discriminate Hread.
  apply node_at_inv in Hn. destruct Hn as [pos [Hr Hpos]].
  destruct p as [|p0 p']; [discriminate Hr|].
  unfold resolve in Hr. unfold open_wb.
  set (p := p0 :: p') in *.
  match type of Hr with
  | resolve_comps _ ?s _ = _ => set (start := s) in *
  end.
  assert (Hnn : Forall (fun w => ~ In nul w) (split slash p)).
  { apply (resolve_comps_no_nul _ _ Hwr _ _ Hr). }
  assert (Hnul : existsb (Ascii.eqb nul) p = false).
  { apply existsb_eqb_false. intros Hin.
    destruct (split_covers slash nul p Hin) as [E|[w [Hw Hc]]]; [discriminate E|].
    rewrite Forall_forall in Hnn. exact (Hnn w Hw Hc). }
  rewrite Hnul. cbv zeta.
  set (name := last (split slash p) []) in *.
  assert (Hcomps : split slash p = removelast (split slash p) ++ [name]).
  { apply app_removelast_last. apply split_nonnil. }
  rewrite Hcomps, resolve_comps_app in Hr.
  destruct (resolve_comps (root fs) start (removelast (split slash p)))
    as [parent|e] eqn:Hpar; cbn [bind] in Hr; [|discriminate Hr].
  cbn [resolve_comps] in Hr.
  destruct (lookup (root fs) parent) as [[st d|st es]|] eqn:Hlp;
    try discriminate Hr.
  destruct (str_eqb name [] || str_eqb name curdir) eqn:E1.
  { inversion Hr; subst pos. congruence. }
  destruct (str_eqb name pardir) eqn:E2.
  { inversion Hr; subst pos. exfalso.
    destruct parent as [|c cs] eqn:Ep; [simpl in Hpos, Hlp; congruence|].
    destruct (lookup_removelast _ _ _ Hlp) as [st1 [es1 H1]]; [discriminate|].
    congruence. }
  destruct (lookup (root fs) (parent ++ [name])) as [m|] eqn:Hl;
    [|discriminate Hr].
  inversion Hr; subst pos. rewrite Hpos in Hl. inversion Hl; subst m.
  apply orb_false_iff in E1. destruct E1 as [E0 E1].
  assert (Hdte : drop_trailing_empty (split slash p) = split slash p).
  { apply drop_trailing_empty_last. fold name. apply str_eqb_neq. exact E0. }
  rewrite Hdte. fold name. fold start. rewrite Hpar. cbn [bind].
  rewrite Hlp, Nat.ltb_irrefl, E0, E1, E2. cbn [orb].
  rewrite Hpos. eexists. reflexivity.
Qed.

(** A document written is the document read, when [json] reads back what
    it wrote. *)
Lemma dump_then_load (V : Type) (json_load : bytes -> result (dict V))
      (json_dumps : dict V -> str) (umask now : Z)
      (fs fs' : filesystem) (filename : str) (values : dict V) :
  wf_fs fs = true ->
  json_load (encode_utf8 (serialize_to_json V json_dumps values)) = Ok values ->
  dump_json_file V json_dumps umask now fs filename values = Ok fs' ->
  wf_fs fs' = true /\ load_json_file V json_load fs' filename = Ok values.
Proof.
  intros Hwf Hcodec Hdump. unfold dump_json_file in Hdump.
  destruct (open_wb_spec _ _ _ _ _ _ Hwf Hdump)
    as [pos [st' [Hwf' [_ [Hr [Hl _]]]]]].
  split; [exact Hwf'|].
  unfold load_json_file, read_binary, node_at.
  rewrite Hr. cbn [bind]. rewrite Hl. cbn [bind]. exact Hcodec.
Qed.

(** X9. After [record_deployed_values] the file holds the values that
    were there, updated with the deployed ones: a later load finds every
    deployed key with its new value and every other key as it was (no
    key at all when there was no file). *)
Theorem record_deployed_values_merges :
  forall (V : Type) json_load json_dumps umask now
         deployed_values filename fs fs' old,
    wf_fs fs = true ->
    (if path_isfile fs filename
     then load_json_file V json_load fs filename else Ok []) = Ok old ->
    json_load (encode_utf8 (serialize_to_json
                              V json_dumps (dict_update old deployed_values)))
    = Ok (dict_update old deployed_values) ->
    record_deployed_values V json_load json_dumps umask now
                           deployed_values filename fs = (fs', Ok tt) ->
    exists merged,
      load_json_file V json_load fs' filename = Ok merged
      /\ (forall k v, NoDup (map fst deployed_values) ->
                      In (k, v) deployed_values ->
                      dict_get k merged = Some v)
      /\ (forall k, dict_has k deployed_values = false ->
                    dict_get k merged = dict_get k old).
Proof.
  intros V json_load json_dumps umask now dv filename fs fs' old
         Hwf Hold Hcodec H.
  unfold record_deployed_values in H. rewrite Hold in H.
  destruct (dump_json_file V json_dumps umask now fs filename
                           (dict_update old dv)) as [fs1|e] eqn:Hdump;
    [|discriminate H].
  inversion H; subst fs1.
  destruct (dump_then_load V json_load json_dumps umask now fs fs' filename
                           _ Hwf Hcodec Hdump) as [_ Hload].
  exists (dict_update old dv). split; [exact Hload|]. split.
  - intros k v Hnd Hin.
    apply (proj2 (dict_get_update V dv old k) v Hnd Hin).
  - intros k Hk. apply (proj1 (dict_get_update V dv old k) Hk).
Qed.

Lemma record_deployed_values_merges_witness :
  exists fs' merged,
    record_deployed_values unit keys_load keys_dumps 18 7
                           [(lit "beta", tt); (lit "dev", tt)]
                           (lit "deployed.json") fs_deployed = (fs', Ok tt)
    /\ load_json_file unit keys_load fs' (lit "deployed.json") = Ok merged
    /\ (forall k v, NoDup (map fst [(lit "beta", tt); (lit "dev", tt)]) ->
                    In (k, v) [(lit "beta", tt); (lit "dev", tt)] ->
                    dict_get k merged = Some v)
    /\ (forall k, dict_has k [(lit "beta", tt); (lit "dev", tt)] = false ->
                  dict_get k merged = dict_get k two_stages).
Proof.
  assert (E : exists fs',
             record_deployed_values unit keys_load keys_dumps 18 7
                                    [(lit "beta", tt); (lit "dev", tt)]
                                    (lit "deployed.json") fs_deployed
             = (fs', Ok tt))
    by (eexists; vm_compute; reflexivity).
  destruct E as [fs' E].
  destruct (record_deployed_values_merges
              unit keys_load keys_dumps 18 7
              [(lit "beta", tt); (lit "dev", tt)] (lit "deployed.json")
              fs_deployed fs' two_stages eq_refl eq_refl eq_refl E)
    as [merged Hm].
  exists fs', merged. split; [exact E | exact Hm].
Defined.

(** X10. [remove_stage_from_deployed_values] deletes the key: when the
    document of the file has the key, the call succeeds, and a later load
    finds the document without that key and with every other key as it
    was. *)
Theorem remove_stage_removes_key :
  forall (V : Type) json_load json_dumps umask now key filename fs d,
    wf_fs fs = true ->
    load_json_file V json_load fs filename = Ok d ->
    dict_get key d <> None ->
    (forall rest, dict_del key d = Some rest ->
                  json_load (encode_utf8 (serialize_to_json V json_dumps rest))
                  = Ok rest) ->
    exists fs' rest,
      remove_stage_from_deployed_values V json_load json_dumps umask now
                                        key filename fs = (fs', Ok tt)
      /\ load_json_file V json_load fs' filename = Ok rest
      /\ dict_get key rest = None
      /\ forall k, k <> key -> dict_get k rest = dict_get k d.
Proof.
  intros V json_load json_dumps umask now key filename fs d
         Hwf Hload Hkey Hcodec.
  unfold remove_stage_from_deployed_values. rewrite Hload.
  destruct (dict_del key d) as [rest|] eqn:Hdel.
  - assert (Hfile : exists data0, read_binary fs filename = Ok data0).
    { unfold load_json_file in Hload.
      destruct (read_binary fs filename) as [data0|e]; [|discriminate Hload].
      exists data0. reflexivity. }
    destruct Hfile as [data0 Hfile].
    destruct (open_wb_existing umask now fs filename data0
                (encode_utf8 (serialize_to_json V json_dumps rest)) Hwf Hfile)
      as [fs' Hw].
    unfold dump_json_file at 1. rewrite Hw.
    destruct (dump_then_load V json_load json_dumps umask now fs fs' filename
                             rest Hwf (Hcodec rest eq_refl) Hw) as [_ Hl].
    destruct (dict_del_get V key d rest Hdel) as [_ [Hgone Hothers]].
    exists fs', rest. repeat split; assumption.
  - exfalso. unfold dict_del in Hdel.
    destruct (dict_has key d) eqn:Hh; [discriminate Hdel|].
    apply dict_get_has in Hh. contradiction.
Qed.

Lemma remove_stage_removes_key_witness :
  exists fs' rest,
    remove_stage_from_deployed_values unit keys_load keys_dumps 18 7
                                      (lit "dev") (lit "deployed.json")
                                      fs_deployed = (fs', Ok tt)
    /\ load_json_file unit keys_load fs' (lit "deployed.json") = Ok rest
    /\ dict_get (lit "dev") rest = None
    /\ forall k, k <> lit "dev" -> dict_get k rest = dict_get k two_stages.
Proof.
  apply (remove_stage_removes_key unit keys_load keys_dumps 18 7
                                  (lit "dev") (lit "deployed.json")
                                  fs_deployed two_stages).
  - reflexivity.
  - reflexivity.
  - discriminate.
  - intros rest H. vm_compute in H. inversion H; subst rest. reflexivity.
Defined.

(** X11. [remove_stage_from_deployed_values] is idempotent: a second
    call with the same key, after a first one that returned normally,
    leaves the file system as the first one left it. *)
Theorem remove_stage_idempotent :
  forall (V : Type) json_load json_dumps umask now key filename fs fs1,
    wf_fs fs = true ->
    (forall d rest,
        load_json_file V json_load fs filename = Ok d ->
        dict_del key d = Some rest ->
        json_load (encode_utf8 (serialize_to_json V json_dumps rest))
        = Ok rest) ->
    remove_stage_from_deployed_values V json_load json_dumps umask now
                                      key filename fs = (fs1, Ok tt) ->
    remove_stage_from_deployed_values V json_load json_dumps umask now
                                      key filename fs1 = (fs1, Ok tt).
Proof.
  intros V json_load json_dumps umask now key filename fs fs1 Hwf Hcodec H.
  pose proof H as H0. unfold remove_stage_from_deployed_values in H.
  destruct (load_json_file V json_load fs filename) as [d|e] eqn:Hload.
  - destruct (dict_del key d) as [rest|] eqn:Hdel.
    + destruct (dump_json_file V json_dumps umask now fs filename rest)
        as [fs'|e] eqn:Hdump; [|discriminate H].
      inversion H; subst fs'.
      destruct (dump_then_load V json_load json_dumps umask now fs fs1 filename
                               rest Hwf (Hcodec d rest eq_refl Hdel) Hdump)
        as [_ Hl].
      apply remove_stage_skips. right. exists rest. split; [exact Hl|].
      apply (dict_del_get V key d rest Hdel).
    + inversion H; subst fs1. exact H0.
  - destruct e; inversion H; subst fs1; exact H0.
Qed.

Lemma remove_stage_idempotent_witness :
  exists fs1,
    remove_stage_from_deployed_values unit keys_load keys_dumps 18 7
                                      (lit "dev") (lit "deployed.json")
                                      fs_deployed = (fs1, Ok tt)
    /\ remove_stage_from_deployed_values unit keys_load keys_dumps 18 7
                                         (lit "dev") (lit "deployed.json")
                                         fs1 = (fs1, Ok tt).
Proof.
  assert (E : exists fs1,
             remove_stage_from_deployed_values
               unit keys_load keys_dumps 18 7
               (lit "dev") (lit "deployed.json") fs_deployed = (fs1, Ok tt))
    by (eexists; vm_compute; reflexivity).
  destruct E as [fs1 E]. exists fs1. split; [exact E|].
  apply (remove_stage_idempotent unit keys_load keys_dumps 18 7
                                 (lit "dev") (lit "deployed.json")
                                 fs_deployed fs1); [reflexivity | | exact E].
  intros d rest Hd Hdel. vm_compute in Hd. inversion Hd; subst d.
  vm_compute in Hdel. inversion Hdel; subst rest. reflexivity.
Defined.

(** ** [normalized_filename] on a POSIX host *)

Lemma posix_normpath_unfold (p : str) :
  p <> [] ->
  posixpath.normpath p
  = let k := if startswith posixpath.sep p then
               if startswith (posixpath.sep ++ posixpath.sep) p
                  && negb (startswith (posixpath.sep ++ posixpath.sep
                                                     ++ posixpath.sep) p)
               then 2 else 1
             else 0 in
    let r := concat (repeat posixpath.sep k)
             ++ join posixpath.sep
                     (posixpath.normcomps (negb (Nat.eqb k 0)) []
                                          (split slash p)) in
    match r with [] => curdir | _ => r end.
Proof. destruct p; [congruence | reflexivity]. Qed.

Lemma startswith_cons (c : ascii) (p s : str) :
  startswith (c :: p) (c :: s) = startswith p s.
Proof. simpl. rewrite Ascii.eqb_refl. reflexivity. Qed.

Lemma startswith_sep_join_clean (out : list str) :
  Forall clean out -> startswith [slash] (join [slash] out) = false.
Proof.
  intros H. destruct out as [|x out]; [reflexivity|].
  apply (join_clean_nonempty (x :: out) H). discriminate.
Qed.

(** The components of a normalised path, split again. *)
Lemma posix_normcomps_split_join (b : bool) (out : list str) :
  Forall clean out ->
  posixpath.normcomps b [] (split slash (join [slash] out))
  = posixpath.normcomps b [] out.
Proof.
  intros H. destruct out as [|x out]; [reflexivity|].
  rewrite split_join; [reflexivity | discriminate|].
  revert H. apply Forall_impl. intros w [_ Hw]. exact Hw.
Qed.

(** A path made of up to two slashes and normalised components is its
    own normal form. *)
Lemma posix_normpath_fixed (k : nat) (out : list str) :
  k <= 2 -> Forall clean out ->
  posixpath.normcomps (negb (Nat.eqb k 0)) [] out = out ->
  concat (repeat posixpath.sep k) ++ join posixpath.sep out <> [] ->
  posixpath.normpath (concat (repeat posixpath.sep k) ++ join posixpath.sep out)
  = concat (repeat posixpath.sep k) ++ join posixpath.sep out.
Proof.
  intros Hk Hclean Hfix Hne.
  pose proof (startswith_sep_join_clean out Hclean) as Hns.
  rewrite (posix_normpath_unfold _ Hne). unfold posixpath.sep in *.
  destruct k as [|[|[|k]]]; [| | |lia]; cbn [repeat concat app] in *.
  - rewrite Hns. cbv zeta. cbn [Nat.eqb negb repeat concat app] in *.
    rewrite posix_normcomps_split_join, Hfix by exact Hclean.
    destruct (join [slash] out); [congruence | reflexivity].
  - rewrite !startswith_cons, Hns. cbn [startswith andb]. cbv zeta.
    cbn [Nat.eqb negb repeat concat app] in *.
    rewrite split_cons_sep, posix_normcomps_cons.
    change (posix_step true [] []) with (@nil str).
    rewrite posix_normcomps_split_join, Hfix by exact Hclean. reflexivity.
  - rewrite !startswith_cons, Hns. cbn [startswith andb negb]. cbv zeta.
    cbn [Nat.eqb negb repeat concat app] in *.
    rewrite !split_cons_sep, !posix_normcomps_cons.
    change (posix_step true [] []) with (@nil str).
    rewrite posix_normcomps_split_join, Hfix by exact Hclean. reflexivity.
Qed.

Lemma split_slash_free (p : str) :
  Forall (fun w => ~ In slash w) (split slash p).
Proof.
  apply Forall_forall. intros w Hw. apply (split_no_sep_in _ _ _ Hw).
Qed.

(** X12. On a POSIX host [normalized_filename] is idempotent: a
    normalised name is its own normal form. *)
Theorem normalized_filename_idempotent :
  forall path,
    normalized_filename Posix (normalized_filename Posix path)
    = normalized_filename Posix path.
Proof.
  intros path. unfold normalized_filename, normpath, splitdrive.
  cbn [posixpath.splitdrive snd].
  destruct path as [|c path']; [reflexivity|].
  rewrite (posix_normpath_unfold (c :: path')) by discriminate.
  set (p := c :: path').
  set (k := if startswith posixpath.sep p then
              if startswith (posixpath.sep ++ posixpath.sep) p
                 && negb (startswith (posixpath.sep ++ posixpath.sep
                                                    ++ posixpath.sep) p)
              then 2 else 1
            else 0).
  cbv zeta.
  set (out := posixpath.normcomps (negb (Nat.eqb k 0)) [] (split slash p)).
  assert (Hk : k <= 2).
  { unfold k. destruct (startswith posixpath.sep p); [|lia].
    destruct (_ && _); lia. }
  assert (Hclean : Forall clean out).
  { apply posix_normcomps_clean; [constructor | apply split_slash_free]. }
  assert (Hfix : posixpath.normcomps (negb (Nat.eqb k 0)) [] out = out).
  { unfold out. destruct (Nat.eqb k 0); cbn [negb].
    - apply posix_normcomps_idem.
    - apply (posix_normcomps_plain true _ []).
      apply posix_normcomps_abs_plain. constructor. }
  destruct (concat (repeat posixpath.sep k) ++ join posixpath.sep out)
    as [|r0 r] eqn:Er; [reflexivity|].
  rewrite <- Er. apply posix_normpath_fixed; try assumption.
  rewrite Er. discriminate.
Qed.

(** ** Endpoints *)

Example endpoint_dns_suffix_from_arn_ex :
  endpoint_dns_suffix_from_arn
    str (fun s => s) endpoints1
    (lit "arn:aws-cn:lambda:cn-north-1:123456789012:function:app-dev")
  = Ok (lit "amazonaws.com.cn")
  /\ endpoint_dns_suffix_from_arn
       str (fun s => s) endpoints1
       (lit "arn:aws:sqs:us-west-2:123456789012:queue")
     = Ok (lit "amazonaws.com")
  /\ endpoint_dns_suffix_from_arn str (fun s => s) endpoints1 (lit "arn:aws:lambda")
     = Raise IndexError.
Proof. repeat split; reflexivity. Qed.

Lemma split_length (c : ascii) (s : str) :
  length (split c s) = S (length (filter (Ascii.eqb c) s)).
Proof.
  induction s as [|x s IH]; [reflexivity|]. simpl.
  rewrite (Ascii.eqb_sym c x). destruct (Ascii.eqb x c).
  - simpl. rewrite IH. reflexivity.
  - destruct (split c s) as [|w ws]; simpl in *; [discriminate IH | exact IH].
Qed.

(** The third and the fourth field of a name with at least five. *)
Lemma split_fields (c : ascii) (f0 f1 f2 f3 rest : str) :
  ~ In c f0 -> ~ In c f1 -> ~ In c f2 -> ~ In c f3 ->
  split c (f0 ++ c :: f1 ++ c :: f2 ++ c :: f3 ++ c :: rest)
  = f0 :: f1 :: f2 :: f3 :: split c rest.
Proof.
  intros H0 H1 H2 H3.
  rewrite !split_app_sep, !split_no_sep by assumption. reflexivity.
Qed.

(** X13. The DNS suffix of an ARN is that of its service and region:
    for an ARN [arn:partition:service:region:...], whatever follows the
    region, [endpoint_dns_suffix_from_arn] gives what
    [endpoint_dns_suffix] gives for the third and fourth field. *)
Theorem endpoint_dns_suffix_from_arn_fields :
  forall (Any : Type) of_str construct_endpoint
         prefix partition service region rest,
    ~ In colon prefix -> ~ In colon partition ->
    ~ In colon service -> ~ In colon region ->
    endpoint_dns_suffix_from_arn
      Any of_str construct_endpoint
      (prefix ++ colon :: partition ++ colon :: service ++ colon
              :: region ++ colon :: rest)
    = endpoint_dns_suffix Any of_str construct_endpoint service region.
Proof.
  intros Any of_str construct_endpoint prefix partition service region rest
         H0 H1 H2 H3.
  unfold endpoint_dns_suffix_from_arn, endpoint_from_arn, endpoint_dns_suffix.
  cbv zeta. rewrite (split_fields colon _ _ _ _ rest H0 H1 H2 H3).
  reflexivity.
Qed.

Lemma endpoint_dns_suffix_from_arn_fields_witness :
  endpoint_dns_suffix_from_arn
    str (fun s => s) endpoints1
    (lit "arn" ++ colon :: lit "aws-cn" ++ colon :: lit "lambda" ++ colon
         :: lit "cn-north-1" ++ colon :: lit "123456789012:function:app-dev")
  = endpoint_dns_suffix str (fun s => s) endpoints1
                        (lit "lambda") (lit "cn-north-1").
Proof.
  apply endpoint_dns_suffix_from_arn_fields;
    intros H; repeat (destruct H as [H|H]; [discriminate H|]); exact H.
Defined.

(** X14. An ARN with fewer than three colons is not answered with the
    default suffix: [endpoint_dns_suffix_from_arn] raises [IndexError]. *)
Theorem endpoint_dns_suffix_from_arn_short :
  forall (Any : Type) of_str construct_endpoint arn,
    length (filter (Ascii.eqb colon) arn) < 3 ->
    endpoint_dns_suffix_from_arn Any of_str construct_endpoint arn
    = Raise IndexError.
Proof.
  intros Any of_str construct_endpoint arn H.
  unfold endpoint_dns_suffix_from_arn, endpoint_from_arn. cbv zeta.
  pose proof (split_length colon arn) as Hl.
  destruct (split colon arn) as [|f0 [|f1 [|f2 [|f3 fs]]]]; try reflexivity.
  simpl in Hl. lia.
Qed.

Lemma endpoint_dns_suffix_from_arn_short_witness :
  endpoint_dns_suffix_from_arn str (fun s => s) endpoints1
                               (lit "arn:aws:lambda")
  = Raise IndexError.
Proof.
  apply endpoint_dns_suffix_from_arn_short. vm_compute. lia.
Defined.

(** ** Where [extract_zipfile] writes *)











(** The members of [zip_slip] land below [/tmp]. *)
Example zip_slip_ex :
  exists fs',
    extract_zipfile 18 7 fs0 zip_slip (lit "/tmp") = Ok fs'
    /\ get_file_contents fs' (lit "/tmp/home/u/src/a.txt") = Ok app_py_data
    /\ get_file_contents fs' (lit "/tmp/home/u/evil.py") = Ok app_py_data
    /\ path_exists fs' (lit "/home/u/evil.py") = false
    /\ node_at fs' (lit "/home/u/src") = node_at fs0 (lit "/home/u/src").
Proof. eexists. repeat split; reflexivity. Qed.

(** ** [OSUtils.copytree] *)

Example copytree_ex :
  exists fs',
    copytree 5 18 7 (lit "src") (lit "/tmp/out") fs0 = (fs', Ok tt)
    /\ node_at fs' (lit "/tmp/out") = Ok (copy_of 18 7 src_tree)
    /\ node_at fs' (lit "src") = Ok src_tree.
Proof. eexists. repeat split; reflexivity. Qed.

(** A destination inside the source is copied into itself until the
    calls are too deep; a source that is a file cannot be listed; the
    missing directories on the way to the destination are made. *)
Example copytree_edge_ex :
  snd (copytree 5 18 7 (lit "src") (lit "src/a/copy") fs0) = Raise RecursionError
  /\ snd (copytree 5 18 7 (lit "src/a/b.txt") (lit "/tmp/out") fs0)
     = Raise (OSError ENOTDIR)
  /\ snd (copytree 5 18 7 (lit "src") (lit "/tmp/x/y/out/") fs0) = Ok tt.
Proof. repeat split; vm_compute; reflexivity. Qed.

Example makedirs_ex :
  snd (makedirs 18 7 (lit "/tmp/q/../r") fs0) = Ok tt
  /\ snd (makedirs 18 7 (lit "/tmp/q/..") fs0) = Raise (OSError EEXIST)
  /\ snd (makedirs 18 7 (lit "/tmp/q/.") fs0) = Ok tt
  /\ snd (makedirs 18 7 (lit "/tmp") fs0) = Raise (OSError EEXIST)
  /\ posix_split (lit "/a/b//") = (lit "/a/b", [])
  /\ posix_split (lit "//") = (lit "//", [])
  /\ posix_split (lit "a") = ([], lit "a").
Proof. repeat split; vm_compute; reflexivity. Qed.

(** *** Changes of a tree, one after the other *)








(** *** A new node in a directory *)




(** *** A name in a directory, as a path *)






(** *** [makedirs] for a name in a directory that is there *)












(** *** One entry of the source *)









(** *** The copy of a tree *)






Lemma not_prefix_above (spos dpos : position) (nm : str) :
  ~ is_prefix spos dpos -> ~ is_prefix (spos ++ [nm]) dpos.
Proof.
  intros H [s Hs]. apply H. exists ([nm] ++ s). rewrite Hs, <- app_assoc.
  reflexivity.
Qed.




